(** * Behaviour planner of the ego vehicle ([vehicle.py], Python 2)

    A shallow embedding of the class [Vehicle]: the kinematics
    ([state_at], [collides_with], [will_collide_with]), the realisation
    of a state tag ([realize_state] and the functions it dispatches to),
    the trajectory roll-out ([_trajectory_for_state]) and the state
    selector ([_get_next_state], [update_state]).

    Conventions of the embedding.
    - The module is Python 2 (it uses the [print] statement).  Numbers are
      Python 2 [int]s (the source says of the configuration "All of them
      are integers", and the prediction records of its docstring are
      integers): they are [Z], and [/] between two of them is Python 2's
      floor division, which is [Z.div].
    - An exception is a value of [Exn]; a method that only reads returns
      [Res A]; a method that assigns to [self] (or pops from a list of
      the predictions) is a state transformer [M S A] whose state
      survives the exception, as the fields of a Python object do.
    - The state tag is the Python string itself.
    - A prediction record [{'lane': l, 's': x}] is a [Pos.t].  The lists
      of a predictions dictionary are objects of a store, and a dictionary
      is the list of its [items()] in iteration order, each with the
      address of its list; a method that only reads the predictions takes
      what the dictionary shows (identifiers and lists).
    - [calculate_cost] is imported from another module and is a parameter.
    - Printing ([print], [cprint]) has no effect on the state and is left
      out.

    The definitions come first, then the theorems, in the order of the
    source: kinematics, realisation, roll-out, selection. *)

From Stdlib Require Import ZArith QArith Lia Bool List String.
From stdpp Require Import base numbers list strings.
Import ListNotations.

Local Open Scope string_scope.
Local Open Scope list_scope.
Local Open Scope Z_scope.

(** ** Exceptions and the two monads *)

Inductive Exn : Type :=
| NameError (name : string)
| IndexError
| TypeError
| ValueError
| AssertionError (msg : Z).

Inductive Res (A : Type) : Type :=
| Ok (x : A)
| Raise (e : Exn).

Arguments Ok {A} x.
Arguments Raise {A} e.

Definition bindR {A B : Type} (m : Res A) (k : A -> Res B) : Res B :=
  match m with
  | Ok x => k x
  | Raise e => Raise e
  end.

Declare Scope res_scope.
Delimit Scope res_scope with res.
Notation "x <- e ;; k" := (bindR e (fun x => k))
  (at level 100, e at next level, right associativity) : res_scope.

(** State and exceptions: the state is kept when an exception is raised. *)
Definition M (S A : Type) : Type := S -> S * Res A.

Definition ret {S A : Type} (x : A) : M S A := fun st => (st, Ok x).
Definition raise {S A : Type} (e : Exn) : M S A := fun st => (st, Raise e).
Definition bind {S A B : Type} (m : M S A) (k : A -> M S B) : M S B :=
  fun st =>
    match m st with
    | (st', Ok x) => k x st'
    | (st', Raise e) => (st', Raise e)
    end.
Definition get {S : Type} : M S S := fun st => (st, Ok st).
Definition modify {S : Type} (f : S -> S) : M S unit := fun st => (f st, Ok tt).
Definition lift {S A : Type} (r : Res A) : M S A := fun st => (st, r).

Declare Scope m_scope.
Delimit Scope m_scope with M.
Notation "x <- e ;; k" := (bind e (fun x => k))
  (at level 100, e at next level, right associativity) : m_scope.
Notation "e ;;; k" := (bind e (fun _ => k))
  (at level 100, right associativity) : m_scope.

(** ** Python built-ins used by the source *)

(** [l[i]]: [IndexError] out of range (the source only uses [0] and [1]). *)
Definition item {A : Type} (l : list A) (i : nat) : Res A :=
  match l !! i with
  | Some x => Ok x
  | None => Raise IndexError
  end.

(** [[x for x in l if p(x)]], the condition may raise. *)
Fixpoint comprehension {A : Type} (p : A -> Res bool) (l : list A) : Res (list A) :=
  match l with
  | [] => Ok []
  | x :: l' =>
      (b <- p x ;;
       r <- comprehension p l' ;;
       Ok (if b then x :: r else r))%res
  end.

(** [min(l, key=...)] and [max(l, key=...)]: one pass, the element kept is
    replaced only by a strictly better one, so the first of several equal
    extrema is returned; [ValueError] on the empty list. *)
Fixpoint extremum_from {A K : Type} (better : K -> K -> bool) (key : A -> Res K)
    (best : A) (kbest : K) (l : list A) : Res A :=
  match l with
  | [] => Ok best
  | x :: l' =>
      (kx <- key x ;;
       if better kx kbest
       then extremum_from better key x kx l'
       else extremum_from better key best kbest l')%res
  end.

Definition extremum {A K : Type} (better : K -> K -> bool) (key : A -> Res K)
    (l : list A) : Res A :=
  match l with
  | [] => Raise ValueError
  | x :: l' => (kx <- key x ;; extremum_from better key x kx l')%res
  end.

Definition py_min {A : Type} (key : A -> Res Z) (l : list A) : Res A :=
  extremum Z.ltb key l.
Definition py_max {A : Type} (key : A -> Res Z) (l : list A) : Res A :=
  extremum Z.gtb key l.

(** [range(n)] *)
Definition py_range (n : Z) : list Z := map Z.of_nat (seq 0 (Z.to_nat n)).

(** [l.remove(x)]: the first occurrence (the source removes literals that
    are in the list). *)
Fixpoint list_remove (x : string) (l : list string) : list string :=
  match l with
  | [] => []
  | y :: l' => if String.eqb x y then l' else y :: list_remove x l'
  end.

(** ** Name resolution

    A bare name inside a method is looked up in the function's locals, then
    in the module's globals, then in the built-ins: never in the class body.
    The module binds [calculate_cost], [namedtuple], [deepcopy], [pdb],
    [cprint], [Snapshot] and [Vehicle], and [L] is not among them.  The
    class body binds [L] and [preferred_buffer], reached through [self]. *)

Inductive PyVal : Type :=
| PInt (n : Z)
| PObj (what : string).

Definition module_globals : list (string * PyVal) :=
  [("calculate_cost", PObj "function"); ("namedtuple", PObj "function");
   ("deepcopy", PObj "function"); ("pdb", PObj "module");
   ("cprint", PObj "function"); ("Snapshot", PObj "type");
   ("Vehicle", PObj "type")].

Definition class_attributes : list (string * PyVal) :=
  [("L", PInt 1); ("preferred_buffer", PInt 6)].

Fixpoint assoc (x : string) (l : list (string * PyVal)) : option PyVal :=
  match l with
  | [] => None
  | (y, n) :: l' => if String.eqb x y then Some n else assoc x l'
  end.

(** A bare name. *)
Definition load_global (x : string) : Res PyVal :=
  match assoc x module_globals with
  | Some n => Ok n
  | None => Raise (NameError x)
  end.

(** [self.x] for a class attribute. *)
Definition load_attr (x : string) : Res PyVal :=
  match assoc x class_attributes with
  | Some n => Ok n
  | None => Raise (NameError x)
  end.

(** [n <= y] for an integer [n]: in Python 2 a number is smaller than any
    object that is not a number. *)
Definition int_le (n : Z) (y : PyVal) : bool :=
  match y with
  | PInt m => n <=? m
  | PObj _ => true
  end.

(** An integer operand of [+] and [-]. *)
Definition as_int (y : PyVal) : Res Z :=
  match y with
  | PInt m => Ok m
  | PObj _ => Raise TypeError
  end.

(** ** Data *)

Module Pos.
Record t : Type := mk { lane : Z; s : Z }.
End Pos.

Module Snapshot.
Record t : Type := mk { lane : Z; s : Z; v : Z; a : Z; state : string }.
End Snapshot.

(** The positions predicted for one other vehicle, index 0 is now. *)
Abbreviation Track := (list Pos.t) (only parsing).
(** [predictions.items()] with the lists read out of the store. *)
Abbreviation Predictions := (list (Z * list Pos.t)) (only parsing).

(** [configure] assigns the five parameters together and [__init__] sets
    them all to [None]: they are set or unset as one. *)
Record Config : Type := mkConfig {
  target_speed : Z;
  lanes_available : Z;
  max_acceleration : Z;
  goal_lane : Z;
  goal_s : Z
}.

Module Vehicle.

Record t : Type := mk {
  lane : Z;
  s : Z;
  v : Z;
  a : Z;
  state : string;
  config : option Config
}.

(** [__init__] *)
Definition init (lane0 s0 v0 a0 : Z) : t := mk lane0 s0 v0 a0 "CS" None.

(** [configure] *)
Definition configure (road_data : Config) : M t unit :=
  modify (fun self => mk (lane self) (s self) (v self) (a self) (state self) (Some road_data)).

(** Arithmetic on a parameter that is still [None] raises [TypeError]. *)
Definition cfg (self : t) : Res Config :=
  match config self with
  | Some c => Ok c
  | None => Raise TypeError
  end.

Definition set_lane (x : Z) : M t unit :=
  modify (fun self => mk x (s self) (v self) (a self) (state self) (config self)).
Definition set_s (x : Z) : M t unit :=
  modify (fun self => mk (lane self) x (v self) (a self) (state self) (config self)).
Definition set_v (x : Z) : M t unit :=
  modify (fun self => mk (lane self) (s self) x (a self) (state self) (config self)).
Definition set_a (x : Z) : M t unit :=
  modify (fun self => mk (lane self) (s self) (v self) x (state self) (config self)).
Definition set_state (x : string) : M t unit :=
  modify (fun self => mk (lane self) (s self) (v self) (a self) x (config self)).

(** *** Kinematics *)

Definition state_at (self : t) (t : Z) : Z * Z * Z * Z :=
  let s' := s self + v self * t + a self * t * t / 2 in
  let v' := v self + a self * t in
  (lane self, s', v', a self).

(** The formula of the specification in exact arithmetic. *)
Definition exact_s (self : Vehicle.t) (t : Z) : Q :=
  (inject_Z (s self) + inject_Z (v self) * inject_Z t
   + inject_Z (a self) * inject_Z t * inject_Z t / 2)%Q.

(** The position of [state_at] alone. *)
Definition s_at (self : Vehicle.t) (t : Z) : Z :=
  let '(_, s', _, _) := state_at self t in s'.

Definition collides_with (self other : Vehicle.t) (at_time : Z) : Res bool :=
  let '(l, s, v, a) := state_at self at_time in
  let '(l_o, s_o, v_o, a_o) := state_at other at_time in
  if l =? l_o
  then (L <- load_global "L" ;; Ok (int_le (Z.abs (s - s_o)) L))%res
  else Ok false.

(** What the specification says [collides_with] computes, with the class
    attribute [L] as the length. *)
Definition collides_with_spec (self other : Vehicle.t) (at_time : Z) : Res bool :=
  let '(l, s, v, a) := state_at self at_time in
  let '(l_o, s_o, v_o, a_o) := state_at other at_time in
  (L <- load_attr "L" ;; Ok ((l =? l_o) && int_le (Z.abs (s - s_o)) L))%res.

Fixpoint will_collide_with_loop (self other : Vehicle.t) (ts : list Z)
    : Res (bool * option Z) :=
  match ts with
  | [] => Ok (false, None)
  | t :: ts' =>
      (c <- collides_with self other t ;;
       if c then Ok (true, Some t) else will_collide_with_loop self other ts')%res
  end.

Definition will_collide_with (self other : Vehicle.t) (timesteps : Z)
    : Res (bool * option Z) :=
  will_collide_with_loop self other (py_range (timesteps + 1)).

(** *** Realising a state *)

Definition realize_constant_speed : M t unit := set_a 0.

(** The condition of the list comprehension of [_max_accel_for_lane]:
    [v[0]['lane'] == lane and v[0]['s'] > s]. *)
Definition is_in_front (lane s : Z) (it : Z * Track) : Res bool :=
  (p <- item (snd it) 0 ;;
   Ok ((Pos.lane p =? lane) && (Pos.s p >? s)))%res.

(** The key of [min] in [_max_accel_for_lane]: [v[0]['s'] - s]. *)
Definition gap_from (s : Z) (v : Track) : Res Z :=
  (p <- item v 0 ;; Ok (Pos.s p - s))%res.

Definition _max_accel_for_lane (self : Vehicle.t) (predictions : Predictions)
    (lane s : Z) : Res Z :=
  (c <- cfg self ;;
   let delta_v_til_target := target_speed c - Vehicle.v self in
   let max_acc := Z.min (max_acceleration c) delta_v_til_target in
   in_front <- comprehension (is_in_front lane s) predictions ;;
   let in_front := map snd in_front in
   if (0 <? Z.of_nat (length in_front))
   then
     leading <- py_min (gap_from s) in_front ;;
     p1 <- item leading 1 ;;
     let next_pos := Pos.s p1 in
     let my_next := s + Vehicle.v self in
     let separation_next := next_pos - my_next in
     buffer <- load_attr "preferred_buffer" ;;
     buffer <- as_int buffer ;;
     let available_room := separation_next - buffer in
     Ok (Z.min max_acc available_room)
   else Ok max_acc)%res.

Definition realize_keep_lane (predictions : Predictions) : M t unit :=
  (self <- get ;;
   acc <- lift (_max_accel_for_lane self predictions (lane self) (s self)) ;;
   set_a acc)%M.

Definition realize_lane_change (predictions : Predictions) (direction : string)
    : M t unit :=
  (let delta := -1 in
   let delta := if String.eqb direction "R" then 1 else delta in
   self <- get ;;
   set_lane (lane self + delta) ;;;
   self <- get ;;
   acc <- lift (_max_accel_for_lane self predictions (lane self) (s self)) ;;
   set_a acc)%M.

(** The lane [realize_prep_lane_change] looks into. *)
Definition prep_lane (self : t) (direction : string) : Z :=
  let delta := -1 in
  let delta := if String.eqb direction "L" then 1 else delta in
  lane self + delta.

(** The condition of the list comprehension of [realize_prep_lane_change]:
    [v[0]['lane'] == lane and v[0]['s'] <= self.s]. *)
Definition is_behind (lane s : Z) (it : Z * Track) : Res bool :=
  (p <- item (snd it) 0 ;;
   Ok ((Pos.lane p =? lane) && (Pos.s p <=? s)))%res.

(** The key of [max] in [realize_prep_lane_change]: [v[1][0]['s']]. *)
Definition s_now (it : Z * Track) : Res Z :=
  (p <- item (snd it) 0 ;; Ok (Pos.s p))%res.

Definition realize_prep_lane_change (predictions : Predictions) (direction : string)
    : M t unit :=
  (self <- get ;;
   let lane := prep_lane self direction in
   ids_and_vehicles <- lift (comprehension (is_behind lane (s self)) predictions) ;;
   if (0 <? Z.of_nat (length ids_and_vehicles))
   then
     nearest_behind <- lift (py_max s_now ids_and_vehicles) ;;
     let nearest_behind := snd nearest_behind in
     p1 <- lift (item nearest_behind 1) ;;
     p0 <- lift (item nearest_behind 0) ;;
     let target_vel := Pos.s p1 - Pos.s p0 in
     let delta_v := v self - target_vel in
     let delta_s := s self - Pos.s p0 in
     if negb (delta_v =? 0)
     then
       let time := -2 * delta_s / delta_v in
       let a0 := if time =? 0 then a self else delta_v / time in
       c <- lift (cfg self) ;;
       let a1 := if a0 >? max_acceleration c then max_acceleration c else a0 in
       let a2 := if a1 <? - max_acceleration c then - max_acceleration c else a1 in
       set_a a2
     else
       c <- lift (cfg self) ;;
       let min_acc := Z.max (- max_acceleration c) (- delta_s) in
       set_a min_acc
   else ret tt)%M.

Definition realize_state (predictions : Predictions) : M t unit :=
  (self <- get ;;
   let state := state self in
   if String.eqb state "CS" then realize_constant_speed
   else if String.eqb state "KL" then realize_keep_lane predictions
   else if String.eqb state "LCL" then realize_lane_change predictions "L"
   else if String.eqb state "LCR" then realize_lane_change predictions "R"
   else if String.eqb state "PLCL" then realize_prep_lane_change predictions "L"
   else if String.eqb state "PLCR" then realize_prep_lane_change predictions "R"
   else ret tt)%M.

(** The vehicle after [self.a = x]. *)
Definition with_a (x : Z) (self : t) : t :=
  mk (lane self) (s self) (v self) x (state self) (config self).

(** No vehicle of the predictions is now in [lane] and ahead of [s]
    (every list has its current position). *)
Definition no_lead (predictions : Predictions) (lane s : Z) : Prop :=
  forall it, In it predictions ->
    exists p rest, snd it = p :: rest /\ ~ (Pos.lane p = lane /\ s < Pos.s p).

(** *** Snapshots *)

Definition snapshot (self : t) : Snapshot.t :=
  Snapshot.mk (lane self) (s self) (v self) (a self) (state self).

Definition restore_state_from_snapshot (snapshot : Snapshot.t) : M t unit :=
  (let s := snapshot in
   set_lane (Snapshot.lane s) ;;;
   set_s (Snapshot.s s) ;;;
   set_v (Snapshot.v s) ;;;
   set_a (Snapshot.a s) ;;;
   set_state (Snapshot.state s))%M.

Definition increment (dt : Z) : M t unit :=
  (self <- get ;;
   set_s (s self + v self * dt) ;;;
   self <- get ;;
   set_v (v self + a self * dt))%M.

(** *** The store

    The lists of a predictions dictionary are mutable objects
    ([_trajectory_for_state] pops their heads), so they live in a store
    and a dictionary holds their addresses: two dictionaries, or two keys
    of one, may hold the same list.  The dictionaries themselves are never
    updated by the source and are values. *)

Abbreviation loc := nat (only parsing).
Abbreviation Heap := (list (list Pos.t)) (only parsing).
(** [items()] of a dictionary, in iteration order: identifier and address. *)
Abbreviation Dict := (list (Z * nat)) (only parsing).

Record World : Type := mkWorld { ego : t; heap : Heap }.

(** The list at an address; the dictionaries of the statements hold
    allocated addresses ([allocated] below), and an address that is not
    allocated reads as the empty list. *)
Definition deref (h : Heap) (l : loc) : Track := default [] (h !! l).

(** What a reader of the dictionary sees. *)
Definition view (h : Heap) (d : Dict) : Predictions :=
  map (fun it => (fst it, deref h (snd it))) d.

Definition on_ego {A : Type} (m : M t A) : M World A :=
  fun w => let (e, r) := m (ego w) in (mkWorld e (heap w), r).
Definition on_heap {A : Type} (m : M Heap A) : M World A :=
  fun w => let (h, r) := m (heap w) in (mkWorld (ego w) h, r).

Fixpoint memo_find (l : loc) (memo : list (loc * loc)) : option loc :=
  match memo with
  | [] => None
  | (old, new) :: memo' => if Nat.eqb l old then Some new else memo_find l memo'
  end.

(** [deepcopy] of a dictionary: every list is copied to a fresh address,
    once (the memo keeps the copy of a list met before, so sharing inside
    the dictionary is kept); the records of a list are never updated and
    are values.  The copy is taken to iterate in the order of the
    original. *)
Fixpoint deepcopy_items (memo : list (loc * loc)) (d : Dict) (h : Heap) : Heap * Dict :=
  match d with
  | [] => (h, [])
  | (v_id, l) :: d' =>
      match memo_find l memo with
      | Some l' =>
          let (h', r) := deepcopy_items memo d' h in (h', (v_id, l') :: r)
      | None =>
          let l' := length h in
          let (h', r) := deepcopy_items ((l, l') :: memo) d' (h ++ [deref h l]) in
          (h', (v_id, l') :: r)
      end
  end.

Definition deepcopy (d : Dict) : M World Dict :=
  on_heap (fun h => let (h', d') := deepcopy_items [] d h in (h', Ok d')).

(** [for v_id, v in predictions.items(): v.pop(0)] *)
Fixpoint pop_heads (d : Dict) : M Heap unit :=
  match d with
  | [] => ret tt
  | (_, l) :: d' =>
      fun h =>
        match deref h l with
        | [] => (h, Raise IndexError)
        | _ :: rest => pop_heads d' (<[l := rest]> h)
        end
  end.

(** *** Rolling a state out *)

(** [assert 0 <= self.lane < self.lanes_available]; in Python 2 no integer
    is below [None], so the assertion fails on an unconfigured vehicle. *)
Definition assert_lane : M t unit :=
  (self <- get ;;
   match config self with
   | Some c =>
       if (0 <=? lane self) && (lane self <? lanes_available c)
       then ret tt
       else raise (AssertionError (lane self))
   | None => raise (AssertionError (lane self))
   end)%M.

Fixpoint trajectory_loop (n : nat) (state : string) (snapshot : Snapshot.t)
    (predictions : Dict) (trajectory : list Snapshot.t) : M World (list Snapshot.t) :=
  match n with
  | O => ret trajectory
  | S n' =>
      (on_ego (restore_state_from_snapshot snapshot) ;;;
       on_ego (set_state state) ;;;
       w <- get ;;
       on_ego (realize_state (view (heap w) predictions)) ;;;
       on_ego assert_lane ;;;
       on_ego (increment 1) ;;;
       w <- get ;;
       let trajectory := trajectory ++ [Vehicle.snapshot (ego w)] in
       on_heap (pop_heads predictions) ;;;
       trajectory_loop n' state snapshot predictions trajectory)%M
  end.

Definition _trajectory_for_state (state : string) (predictions : Dict) (horizon : Z)
    : M World (list Snapshot.t) :=
  (w <- get ;;
   let snapshot := Vehicle.snapshot (ego w) in
   on_ego (set_state state) ;;;
   trajectory <- trajectory_loop (Z.to_nat horizon) state snapshot predictions [snapshot] ;;
   on_ego (restore_state_from_snapshot snapshot) ;;;
   ret trajectory)%M.

(** *** Choosing the next state

    [calculate_cost] is imported from [cost_functions], which is not part
    of this module: it is a parameter, a function of the vehicle, the
    trajectory and the predictions it is given, into any type of costs
    with its [<]. *)

Section Selector.

Context {Cost : Type}.
Variable cost_lt : Cost -> Cost -> bool.
Variable calculate_cost : t -> list Snapshot.t -> Predictions -> Cost.

(** One turn of [for state in states]: the entry appended to [costs]. *)
Definition evaluate_state (predictions : Dict) (state : string)
    : M World (string * Cost) :=
  (predictions_copy <- deepcopy predictions ;;
   trajectory <- _trajectory_for_state state predictions_copy 5 ;;
   w <- get ;;
   let cost := calculate_cost (ego w) trajectory (view (heap w) predictions) in
   ret (state, cost))%M.

(** The cost of a candidate evaluated on its own in the world [w]. *)
Definition cost_of (predictions : Dict) (w : World) (state : string) : Res Cost :=
  match evaluate_state predictions state w with
  | (_, Ok entry) => Ok (snd entry)
  | (_, Raise e) => Raise e
  end.

Fixpoint evaluate_states (predictions : Dict) (states : list string)
    (costs : list (string * Cost)) : M World (list (string * Cost)) :=
  match states with
  | [] => ret costs
  | state :: states' =>
      (entry <- evaluate_state predictions state ;;
       evaluate_states predictions states' (costs ++ [entry]))%M
  end.

(** The list [states] after the two [remove]s. *)
Definition candidate_states (self : t) (c : Config) : list string :=
  let states := ["KL"; "LCL"; "LCR"] in
  let states := if lane self =? 0 then list_remove "LCL" states else states in
  let states :=
    if lane self =? lanes_available c - 1 then list_remove "LCR" states else states in
  states.

Definition _get_next_state (predictions : Dict) : M World string :=
  (w <- get ;;
   c <- lift (cfg (ego w)) ;;
   let states := candidate_states (ego w) c in
   costs <- evaluate_states predictions states [] ;;
   best <- lift (extremum cost_lt (fun entry => Ok (snd entry)) costs) ;;
   ret (fst best))%M.

Definition update_state (predictions : Dict) : M World unit :=
  (state <- _get_next_state predictions ;;
   on_ego (set_state state))%M.

End Selector.

(** [generate_predictions] *)
Definition generate_predictions (self : Vehicle.t) (horizon : Z) : Track :=
  map (fun i => let '(lane, s, v, a) := state_at self i in Pos.mk lane s)
      (py_range horizon).

(** *** Notions of the statements *)

(** One turn of the loop of [_trajectory_for_state], on the vehicle. *)
Definition turn (state : string) (snap : Snapshot.t) (predictions : Predictions)
    : M t unit :=
  (restore_state_from_snapshot snap ;;;
   set_state state ;;;
   realize_state predictions ;;;
   assert_lane ;;;
   increment 1)%M.

(** The lists of the store below [n] are the same in [h'] as in [h]. *)
Definition kept (n : nat) (h h' : Heap) : Prop :=
  (length h <= length h')%nat /\ forall l : loc, (l < n)%nat -> h' !! l = h !! l.

(** Every address of the dictionary is at or above [n]. *)
Definition above (n : nat) (d : Dict) : Prop :=
  forall it, In it d -> (n <= snd it)%nat.

(** Every address of the dictionary is allocated. *)
Definition allocated (h : Heap) (d : Dict) : Prop :=
  forall it, In it d -> (snd it < length h)%nat.

(** The same dictionary copied into a store longer by [k] is the copy
    moved up by [k]. *)
Definition shift (k : nat) (d : Dict) : Dict :=
  map (fun it => (fst it, (snd it + k)%nat)) d.

Definition sim (k : nat) (d : Dict) (h1 h2 : Heap) : Prop :=
  forall it, In it d -> deref h2 (snd it + k)%nat = deref h1 (snd it).

Definition shift_memo (k : nat) (memo : list (loc * loc)) : list (loc * loc) :=
  map (fun p => (fst p, (snd p + k)%nat)) memo.

(** [n] calls of [increment()] in a row. *)
Fixpoint increments (n : nat) : M t unit :=
  match n with
  | O => ret tt
  | S n' => (increment 1 ;;; increments n')%M
  end.

(** An entry of the predictions after [v.pop(0)]. *)
Definition popped (it : Z * Track) : Z * Track := (fst it, tail (snd it)).

(** A result that is a value or an [IndexError]. *)
Definition index_error_only {A : Type} (r : Res A) : Prop :=
  match r with
  | Ok _ => True
  | Raise e => e = IndexError
  end.

(** The change of lane a state tag stands for. *)
Definition lane_shift (state : string) : Z :=
  if String.eqb state "LCL" then -1
  else if String.eqb state "LCR" then 1
  else 0.


(** What one turn of the loop leaves in the vehicle when no statement of
    it raises. *)
Definition one_step (state : string) (snap : Snapshot.t) (cf : option Config)
    (sn : Snapshot.t) : Prop :=
  Snapshot.state sn = state
  /\ Snapshot.lane sn = Snapshot.lane snap + lane_shift state
  /\ Snapshot.s sn = Snapshot.s snap + Snapshot.v snap
  /\ Snapshot.v sn = Snapshot.v snap + Snapshot.a sn
  /\ exists c, cf = Some c /\ 0 <= Snapshot.lane sn < lanes_available c.

(** *** A road for the examples

    A road of three lanes, the ego in the middle lane at the target speed,
    one other vehicle ahead of it in its lane and one behind it in the left
    lane.  The cost function of the examples prefers to leave the middle
    lane, and rates the two other lanes alike. *)

Definition example_config : Config := mkConfig 20 3 10 0 100.
Definition example_ego : Vehicle.t :=
  fst (configure example_config (init 1 0 20 0)).
Definition example_world : World :=
  mkWorld example_ego
    [[Pos.mk 1 30; Pos.mk 1 32; Pos.mk 1 34; Pos.mk 1 36; Pos.mk 1 38; Pos.mk 1 40];
     [Pos.mk 0 (-5); Pos.mk 0 15; Pos.mk 0 35; Pos.mk 0 55; Pos.mk 0 75; Pos.mk 0 95]].
Definition example_predictions : Dict := [(7, 0%nat); (8, 1%nat)].
Definition example_cost (self : Vehicle.t) (trajectory : list Snapshot.t)
    (predictions : Predictions) : Z :=
  match last trajectory with
  | Some snap => if Snapshot.lane snap =? lane self then 5 else 3
  | None => 0
  end.

(** ** Kinematics: [state_at], [collides_with], [will_collide_with] *)

Lemma exact_s_double (self : Vehicle.t) (t : Z) :
  (exact_s self t * 2 ==
   inject_Z (2 * s self + 2 * v self * t + a self * t * t))%Q.
Proof.
  unfold exact_s.
  rewrite !inject_Z_plus, !inject_Z_mult.
  change (inject_Z 2) with 2%Q.
  field.
Qed.

(** C8, as the code has it: [state_at] returns the lane and the
    acceleration unchanged, the velocity [v + a*t], and the position
    [s + v*t + (a*t*t) / 2] where [/] is the floor division of Python 2
    integers: the exact value of the kinematic formula less
    [((a*t*t) mod 2) / 2], so exact when [a*t*t] is even.  Both examples
    of the specification are of that kind: 30 and 10, 39 and 16.  The
    function returns a tuple and assigns nothing. *)
Theorem state_at_floor_division :
  (forall (self : Vehicle.t) (t : Z),
      state_at self t
      = (lane self, s self + v self * t + (a self * t * t) / 2,
         v self + a self * t, a self))
  /\ (forall (self : Vehicle.t) (t : Z),
        (inject_Z (s_at self t)
         == exact_s self t - inject_Z ((a self * t * t) mod 2) / 2)%Q)
  /\ (forall lane0 tag cf, state_at (mk lane0 0 10 0 tag cf) 3 = (lane0, 30, 10, 0))
  /\ (forall lane0 tag cf, state_at (mk lane0 0 10 2 tag cf) 3 = (lane0, 39, 16, 2)).
Proof.
  split; [reflexivity |].
  split; [| split; reflexivity].
  intros self t.
  assert (H : (inject_Z (s_at self t) * 2
               == exact_s self t * 2 - inject_Z ((a self * t * t) mod 2))%Q).
  { rewrite exact_s_double.
    change 2%Q with (inject_Z 2).
    unfold Qminus.
    rewrite <- inject_Z_mult, <- inject_Z_opp, <- inject_Z_plus.
    apply inject_Z_injective.
    unfold s_at, state_at.
    pose proof (Z.div_mod (a self * t * t) 2 ltac:(lia)).
    lia. }
  transitivity ((inject_Z (s_at self t) * 2) / 2)%Q; [field |].
  rewrite H. field.
Qed.

(** C8, as stated, fails: from rest at [s = 0] with [a = 1] the exact
    position after one step is 1/2, and [state_at] returns 0. *)
Lemma state_at_not_exact :
  s_at (mk 0 0 0 1 "CS" None) 1 = 0
  /\ ~ (inject_Z (s_at (mk 0 0 0 1 "CS" None) 1)
        == exact_s (mk 0 0 0 1 "CS" None) 1)%Q.
Proof.
  split; [reflexivity |].
  vm_compute. discriminate.
Qed.

Lemma collides_with_cases (self other : Vehicle.t) (at_time : Z) :
  collides_with self other at_time
  = if lane self =? lane other then Raise (NameError "L") else Ok false.
Proof.
  unfold collides_with, state_at.
  destruct (lane self =? lane other); reflexivity.
Qed.

Lemma will_collide_with_loop_other_lane (self other : Vehicle.t) (ts : list Z) :
  (lane self =? lane other) = false ->
  will_collide_with_loop self other ts = Ok (false, None).
Proof.
  intros Hne.
  induction ts as [| t0 ts IH]; simpl; [reflexivity |].
  rewrite collides_with_cases, Hne. simpl. exact IH.
Qed.

Lemma py_range_pos (n : Z) :
  0 < n -> exists ts, py_range n = 0 :: ts.
Proof.
  intros Hn. unfold py_range.
  destruct (Z.to_nat n) as [| k] eqn:E; [lia |].
  simpl. eauto.
Qed.

Lemma py_range_nonpos (n : Z) : n <= 0 -> py_range n = [].
Proof.
  intros Hn. unfold py_range.
  replace (Z.to_nat n) with 0%nat by lia. reflexivity.
Qed.

(** C9 against the code: two vehicles at the same place collide by the
    specification (same lane, distance 0, length [L = 1]), and there
    [collides_with] raises [NameError] for the bare name [L]; it returns
    [True] for no pair of vehicles at all.  The symmetry holds. *)
Theorem collides_with_never_true :
  collides_with (init 0 0 0 0) (init 0 0 0 0) 0 = Raise (NameError "L")
  /\ collides_with_spec (init 0 0 0 0) (init 0 0 0 0) 0 = Ok true
  /\ (forall (self other : Vehicle.t) (at_time : Z),
        collides_with self other at_time <> Ok true)
  /\ (forall (self other : Vehicle.t) (at_time : Z),
        collides_with self other at_time = collides_with other self at_time).
Proof.
  split; [reflexivity |].
  split; [reflexivity |].
  split; intros self other at_time; rewrite !collides_with_cases.
  - destruct (lane self =? lane other); discriminate.
  - rewrite (Z.eqb_sym (lane other)). reflexivity.
Qed.

(** C10, as the code has it: [and] does not evaluate its right operand
    when the lanes differ, so [collides_with] returns [False] for vehicles
    in different lanes and raises [NameError] for [L] exactly when the two
    vehicles are in the same lane; [will_collide_with] raises exactly when
    its range is not empty ([timesteps >= 0]) and the lanes are the same,
    and returns [(False, None)] otherwise. *)
Theorem collides_with_raises_iff_same_lane :
  (forall (self other : Vehicle.t) (at_time : Z),
      collides_with self other at_time
      = if lane self =? lane other then Raise (NameError "L") else Ok false)
  /\ (forall (self other : Vehicle.t) (timesteps : Z),
        will_collide_with self other timesteps
        = if (0 <=? timesteps) && (lane self =? lane other)
          then Raise (NameError "L") else Ok (false, None)).
Proof.
  split; [apply collides_with_cases |].
  intros self other timesteps. unfold will_collide_with.
  destruct (lane self =? lane other) eqn:Hl.
  - destruct (0 <=? timesteps) eqn:Hn; simpl.
    + destruct (py_range_pos (timesteps + 1)) as [ts ->]; [lia |].
      simpl. rewrite collides_with_cases, Hl. reflexivity.
    + rewrite py_range_nonpos by lia. reflexivity.
  - rewrite andb_false_r. apply will_collide_with_loop_other_lane, Hl.
Qed.

(** C10, as stated, fails: for two vehicles in different lanes both
    functions return. *)
Lemma collides_with_returns_in_other_lane :
  collides_with (init 0 0 0 0) (init 1 0 0 0) 0 = Ok false
  /\ will_collide_with (init 0 0 0 0) (init 1 0 0 0) 3 = Ok (false, None).
Proof. split; reflexivity. Qed.

(** ** The built-ins *)

Lemma comprehension_In {A : Type} (p : A -> Res bool) (l r : list A) (x : A) :
  comprehension p l = Ok r -> In x r -> In x l /\ p x = Ok true.
Proof.
  revert r. induction l as [| y l IH]; simpl; intros r Hr Hx.
  - inversion Hr; subst. destruct Hx.
  - destruct (p y) as [b |] eqn:Hy; simpl in Hr; [| discriminate].
    destruct (comprehension p l) as [r' |]; simpl in Hr; [| discriminate].
    inversion Hr; subst; clear Hr.
    destruct b.
    + destruct Hx as [-> | Hx]; [auto |].
      destruct (IH r' eq_refl Hx); auto.
    + destruct (IH r' eq_refl Hx); auto.
Qed.

Lemma comprehension_none {A : Type} (p : A -> Res bool) (l : list A) :
  (forall x, In x l -> p x = Ok false) -> comprehension p l = Ok [].
Proof.
  induction l as [| y l IH]; simpl; intros H; [reflexivity |].
  rewrite (H y) by auto. simpl.
  rewrite IH by auto. reflexivity.
Qed.

Lemma extremum_from_In {A K : Type} (better : K -> K -> bool) (key : A -> Res K)
    (l : list A) (best x : A) (kbest : K) :
  extremum_from better key best kbest l = Ok x -> x = best \/ In x l.
Proof.
  revert best kbest. induction l as [| y l IH]; simpl; intros best kbest H.
  - inversion H; auto.
  - destruct (key y) as [ky |]; simpl in H; [| discriminate].
    destruct (better ky kbest); apply IH in H; intuition congruence.
Qed.

Lemma extremum_In {A K : Type} (better : K -> K -> bool) (key : A -> Res K)
    (l : list A) (x : A) :
  extremum better key l = Ok x -> In x l.
Proof.
  destruct l as [| y l]; simpl; [discriminate |].
  destruct (key y) as [ky |]; simpl; [| discriminate].
  intros H. apply extremum_from_In in H. intuition congruence.
Qed.

(** ** Realising a state *)

Lemma max_accel_upper (self : Vehicle.t) (c : Config) (predictions : Predictions)
    (l x acc : Z) :
  config self = Some c ->
  _max_accel_for_lane self predictions l x = Ok acc ->
  acc <= max_acceleration c.
Proof.
  intros Hc. unfold _max_accel_for_lane, cfg. rewrite Hc. simpl.
  destruct (comprehension _ _) as [in_front |]; simpl; [| discriminate].
  destruct (0 <? _).
  - destruct (py_min _ _) as [leading |]; simpl; [| discriminate].
    destruct (item _ 1) as [p1 |]; simpl; [| discriminate].
    intros H; inversion H; lia.
  - intros H; inversion H; lia.
Qed.

Lemma is_in_front_no_lead (predictions : Predictions) (l x : Z) :
  no_lead predictions l x ->
  comprehension (is_in_front l x) predictions = Ok [].
Proof.
  intros H. apply comprehension_none. intros it Hit.
  destruct (H it Hit) as (p & rest & Htrack & Hno).
  unfold is_in_front, item. rewrite Htrack. simpl.
  f_equal.
  destruct (Pos.lane p =? l) eqn:Hl; [| reflexivity].
  destruct (Pos.s p >? x) eqn:Hs; [| reflexivity].
  exfalso. apply Hno. lia.
Qed.

Lemma max_accel_no_lead (self : Vehicle.t) (c : Config) (predictions : Predictions)
    (l x : Z) :
  config self = Some c ->
  no_lead predictions l x ->
  _max_accel_for_lane self predictions l x
  = Ok (Z.min (max_acceleration c) (target_speed c - v self)).
Proof.
  intros Hc Hno. unfold _max_accel_for_lane, cfg. rewrite Hc. simpl.
  rewrite (is_in_front_no_lead _ _ _ Hno). reflexivity.
Qed.

Lemma realize_keep_lane_run (predictions : Predictions) (self : Vehicle.t) :
  realize_keep_lane predictions self
  = match _max_accel_for_lane self predictions (lane self) (s self) with
    | Ok acc => (with_a acc self, Ok tt)
    | Raise e => (self, Raise e)
    end.
Proof.
  unfold realize_keep_lane, bind, get, lift.
  destruct (_max_accel_for_lane _ _ _ _); reflexivity.
Qed.

Lemma realize_lane_change_run (predictions : Predictions) (direction : string)
    (self : Vehicle.t) :
  let delta := if String.eqb direction "R" then 1 else -1 in
  let moved := mk (lane self + delta) (s self) (v self) (a self) (state self)
                  (config self) in
  realize_lane_change predictions direction self
  = match _max_accel_for_lane moved predictions (lane moved) (s moved) with
    | Ok acc => (with_a acc moved, Ok tt)
    | Raise e => (moved, Raise e)
    end.
Proof.
  unfold realize_lane_change, bind, get, lift, set_lane, modify. simpl.
  destruct (_max_accel_for_lane _ _ _ _); reflexivity.
Qed.

Lemma realize_prep_lane_change_frame (predictions : Predictions) (direction : string)
    (self self' : Vehicle.t) (r : Res unit) :
  realize_prep_lane_change predictions direction self = (self', r) ->
  exists x, self' = with_a x self.
Proof.
  assert (Hid : self = with_a (a self) self) by (destruct self; reflexivity).
  unfold realize_prep_lane_change, bind, get, lift, set_a, modify, ret.
  destruct (comprehension _ _) as [cands |]; [| intros [= <- _]; eauto].
  destruct (0 <? _); [| intros [= <- _]; eauto].
  destruct (py_max _ _) as [nearest |]; [| intros [= <- _]; eauto].
  destruct (item _ 1) as [p1 |]; [| intros [= <- _]; eauto].
  destruct (item _ 0) as [p0 |]; [| intros [= <- _]; eauto].
  destruct (negb _);
    (destruct (cfg self) as [c |]; [| intros [= <- _]; eauto]);
    intros [= <- _]; eexists; reflexivity.
Qed.

Lemma realize_prep_lane_change_bound (predictions : Predictions) (direction : string)
    (self self' : Vehicle.t) (c : Config) :
  config self = Some c ->
  0 <= max_acceleration c ->
  realize_prep_lane_change predictions direction self = (self', Ok tt) ->
  (a self <= max_acceleration c -> a self' <= max_acceleration c)
  /\ (- max_acceleration c <= a self -> - max_acceleration c <= a self').
Proof.
  intros Hc Hm.
  unfold realize_prep_lane_change, bind, get, lift, set_a, modify, ret, cfg.
  rewrite Hc.
  destruct (comprehension _ _) as [cands |] eqn:Hcands; [| discriminate].
  destruct (0 <? _); [| intros [= <-]; auto].
  destruct (py_max _ _) as [nearest |] eqn:Hmax; [| discriminate].
  destruct (item _ 1) as [p1 |]; [| discriminate].
  destruct (item _ 0) as [p0 |] eqn:Hp0; [| discriminate].
  apply extremum_In in Hmax.
  destruct (comprehension_In _ _ _ _ Hcands Hmax) as [_ Hbehind].
  unfold is_behind in *. rewrite Hp0 in Hbehind. cbn [bindR] in Hbehind.
  injection Hbehind as Hbehind. apply andb_true_iff in Hbehind as [_ Hs].
  destruct (negb _); intros [= <-]; cbn [a].
  - match goal with
    | |- context [if ?x >? max_acceleration c then max_acceleration c else ?x] =>
        generalize x
    end.
    intros a0.
    destruct (a0 >? max_acceleration c) eqn:Hhi;
      [destruct (max_acceleration c <? - max_acceleration c) eqn:Hlo
      | destruct (a0 <? - max_acceleration c) eqn:Hlo]; lia.
  - lia.
Qed.

Lemma realize_state_PLCL (predictions : Predictions) (self : Vehicle.t) :
  state self = "PLCL" ->
  realize_state predictions self = realize_prep_lane_change predictions "L" self.
Proof. intros H. unfold realize_state, bind, get. rewrite H. reflexivity. Qed.

Lemma realize_state_PLCR (predictions : Predictions) (self : Vehicle.t) :
  state self = "PLCR" ->
  realize_state predictions self = realize_prep_lane_change predictions "R" self.
Proof. intros H. unfold realize_state, bind, get. rewrite H. reflexivity. Qed.

Lemma realize_state_KL (predictions : Predictions) (self : Vehicle.t) :
  state self = "KL" ->
  realize_state predictions self = realize_keep_lane predictions self.
Proof. intros H. unfold realize_state, bind, get. rewrite H. reflexivity. Qed.

Lemma realize_state_LCL (predictions : Predictions) (self : Vehicle.t) :
  state self = "LCL" ->
  realize_state predictions self = realize_lane_change predictions "L" self.
Proof. intros H. unfold realize_state, bind, get. rewrite H. reflexivity. Qed.

Lemma realize_state_LCR (predictions : Predictions) (self : Vehicle.t) :
  state self = "LCR" ->
  realize_state predictions self = realize_lane_change predictions "R" self.
Proof. intros H. unfold realize_state, bind, get. rewrite H. reflexivity. Qed.

Lemma realize_state_CS (predictions : Predictions) (self : Vehicle.t) :
  state self = "CS" ->
  realize_state predictions self = (with_a 0 self, Ok tt).
Proof. intros H. unfold realize_state, bind, get. rewrite H. reflexivity. Qed.

(** A tag that is none of the six is realised by doing nothing. *)
Lemma realize_state_other (predictions : Predictions) (self : Vehicle.t) :
  state self <> "CS" -> state self <> "KL" -> state self <> "LCL" ->
  state self <> "LCR" -> state self <> "PLCL" -> state self <> "PLCR" ->
  realize_state predictions self = (self, Ok tt).
Proof.
  intros H1 H2 H3 H4 H5 H6. unfold realize_state, bind, get.
  apply String.eqb_neq in H1, H2, H3, H4, H5, H6.
  cbv zeta. rewrite H1, H2, H3, H4, H5, H6. reflexivity.
Qed.

(** C1, as the code has it, for a configured vehicle with
    [max_acceleration >= 0].  After [realize_state] has completed:
    in the states KL, LCL and LCR the acceleration is at most
    [max_acceleration] (and has no lower bound: it is the least of
    [max_acceleration], [target_speed - v] and the room behind the
    leading vehicle); in the state CS its magnitude is at most
    [max_acceleration]; in any other state the magnitude is at most
    [max_acceleration] when it was so before.  And in the state KL,
    with no vehicle ahead in the lane of the ego, [realize_state]
    completes with [a = min(max_acceleration, target_speed - v)]. *)
Theorem realize_state_acceleration (self : Vehicle.t) (c : Config)
    (predictions : Predictions) :
  config self = Some c ->
  0 <= max_acceleration c ->
  (forall self', realize_state predictions self = (self', Ok tt) ->
     (state self = "KL" \/ state self = "LCL" \/ state self = "LCR" ->
      a self' <= max_acceleration c)
     /\ (state self = "CS" -> Z.abs (a self') <= max_acceleration c)
     /\ (state self <> "KL" -> state self <> "LCL" -> state self <> "LCR" ->
         Z.abs (a self) <= max_acceleration c ->
         Z.abs (a self') <= max_acceleration c))
  /\ (state self = "KL" ->
      no_lead predictions (lane self) (s self) ->
      realize_state predictions self
      = (with_a (Z.min (max_acceleration c) (target_speed c - v self)) self, Ok tt)).
Proof.
  intros Hc Hm. split.
  - intros self' Hrun. split; [| split].
    + intros [Hs | [Hs | Hs]].
      * rewrite (realize_state_KL _ _ Hs), realize_keep_lane_run in Hrun.
        destruct (_max_accel_for_lane _ _ _ _) as [acc |] eqn:Hacc; [| discriminate].
        injection Hrun as <-. simpl.
        eapply max_accel_upper; eauto.
      * rewrite (realize_state_LCL _ _ Hs), realize_lane_change_run in Hrun.
        cbv zeta in Hrun.
        destruct (_max_accel_for_lane _ _ _ _) as [acc |] eqn:Hacc; [| discriminate].
        injection Hrun as <-. simpl.
        eapply max_accel_upper; [| exact Hacc]. exact Hc.
      * rewrite (realize_state_LCR _ _ Hs), realize_lane_change_run in Hrun.
        cbv zeta in Hrun.
        destruct (_max_accel_for_lane _ _ _ _) as [acc |] eqn:Hacc; [| discriminate].
        injection Hrun as <-. simpl.
        eapply max_accel_upper; [| exact Hacc]. exact Hc.
    + intros Hs. rewrite (realize_state_CS _ _ Hs) in Hrun.
      injection Hrun as <-. simpl. lia.
    + intros H2 H3 H4 Ha.
      destruct (string_dec (state self) "CS") as [H1 | H1].
      { rewrite (realize_state_CS _ _ H1) in Hrun. injection Hrun as <-. simpl. lia. }
      destruct (string_dec (state self) "PLCL") as [H5 | H5].
      { rewrite (realize_state_PLCL _ _ H5) in Hrun.
        destruct (realize_prep_lane_change_bound _ _ _ _ _ Hc Hm Hrun). lia. }
      destruct (string_dec (state self) "PLCR") as [H6 | H6].
      { rewrite (realize_state_PLCR _ _ H6) in Hrun.
        destruct (realize_prep_lane_change_bound _ _ _ _ _ Hc Hm Hrun). lia. }
      rewrite realize_state_other in Hrun by assumption.
      injection Hrun as <-. exact Ha.
  - intros Hs Hno.
    rewrite (realize_state_KL _ _ Hs), realize_keep_lane_run.
    rewrite (max_accel_no_lead _ _ _ _ _ Hc Hno). reflexivity.
Qed.

(** C1, as stated, fails: a vehicle in the state KL that drives at 50
    where the target speed is 20 and [max_acceleration] is 10, with no
    other vehicle, is given the acceleration -30. *)
Lemma realize_keep_lane_exceeds_bound :
  let c := mkConfig 20 3 10 0 100 in
  let self := mk 1 0 50 0 "KL" (Some c) in
  realize_state [] self = (with_a (-30) self, Ok tt)
  /\ ~ Z.abs (a (with_a (-30) self)) <= max_acceleration c.
Proof. split; [reflexivity | simpl; lia]. Qed.

Lemma realize_state_acceleration_witness :
  let c := mkConfig 20 3 10 0 100 in
  let self := mk 1 0 15 0 "KL" (Some c) in
  let predictions := [(7, [Pos.mk 0 30; Pos.mk 0 32]); (8, [Pos.mk 1 (-4); Pos.mk 1 0])] in
  config self = Some c
  /\ 0 <= max_acceleration c
  /\ no_lead predictions (lane self) (s self)
  /\ realize_state predictions self = (with_a 5 self, Ok tt)
  /\ a (with_a 5 self) <= max_acceleration c.
Proof.
  intros c self predictions.
  assert (Hc : config self = Some c) by reflexivity.
  assert (Hm : 0 <= max_acceleration c) by (simpl; lia).
  assert (Hno : no_lead predictions (lane self) (s self)).
  { intros it [<- | [<- | []]]; simpl; eexists _, _; (split; [reflexivity |]); simpl; lia. }
  destruct (realize_state_acceleration self c predictions Hc Hm) as [Hbound Hkl].
  pose proof (Hkl eq_refl Hno) as Hrun.
  split; [exact Hc |]. split; [exact Hm |]. split; [exact Hno |].
  split; [exact Hrun |].
  apply (proj1 (Hbound _ Hrun)). left. reflexivity.
Defined.

Lemma realize_lane_change_lane (predictions : Predictions) (direction : string)
    (self self' : Vehicle.t) (r : Res unit) :
  realize_lane_change predictions direction self = (self', r) ->
  lane self' = lane self + (if String.eqb direction "R" then 1 else -1).
Proof.
  rewrite realize_lane_change_run. cbv zeta.
  destruct (_max_accel_for_lane _ _ _ _); intros [= <- _]; reflexivity.
Qed.

(** C3 against the code.  [realize_prep_lane_change] looks into
    [lane + 1] for "L" and into [lane - 1] for "R": the opposite of
    [realize_lane_change], where "L" is [lane - 1].  With the ego in lane
    1 at [s = 10], [v = 5], and one other vehicle behind it in the left
    lane 0 (at 4, then 6), PLCL finds no vehicle and leaves the
    acceleration at 0, although that vehicle is a candidate of the claim;
    the same vehicle in the right lane 2 is found and gives [a = -1].
    [realize_lane_change] moves the ego to [lane - 1] for "L".  The lane
    of the ego is unchanged in both states. *)
Theorem realize_prep_lane_change_wrong_side :
  let c := mkConfig 20 3 10 0 100 in
  let self := mk 1 10 5 0 "PLCL" (Some c) in
  let left := [(7, [Pos.mk 0 4; Pos.mk 0 6])] in
  let right := [(7, [Pos.mk 2 4; Pos.mk 2 6])] in
  (forall ego : Vehicle.t,
      prep_lane ego "L" = lane ego + 1 /\ prep_lane ego "R" = lane ego - 1)
  /\ comprehension (is_behind (lane self - 1) (s self)) left = Ok left
  /\ realize_state left self = (self, Ok tt)
  /\ realize_state right self = (with_a (-1) self, Ok tt)
  /\ (forall (ego ego' : Vehicle.t) (predictions : Predictions) (r : Res unit),
        realize_lane_change predictions "L" ego = (ego', r) ->
        lane ego' = lane ego - 1)
  /\ (forall (ego ego' : Vehicle.t) (predictions : Predictions) (r : Res unit),
        state ego = "PLCL" \/ state ego = "PLCR" ->
        realize_state predictions ego = (ego', r) ->
        lane ego' = lane ego).
Proof.
  cbv zeta.
  split; [intros ego; split; reflexivity |].
  split; [reflexivity |].
  split; [reflexivity |].
  split; [reflexivity |].
  split.
  { intros ego ego' predictions r Hrun.
    apply realize_lane_change_lane in Hrun. simpl in Hrun. lia. }
  intros ego ego' predictions r [Hs | Hs] Hrun.
  - rewrite (realize_state_PLCL _ _ Hs) in Hrun.
    apply realize_prep_lane_change_frame in Hrun as [x ->]. reflexivity.
  - rewrite (realize_state_PLCR _ _ Hs) in Hrun.
    apply realize_prep_lane_change_frame in Hrun as [x ->]. reflexivity.
Qed.

Lemma py_max_nonempty {A : Type} (key : A -> Res Z) (l : list A) (x : A) :
  py_max key l = Ok x -> (0 <? Z.of_nat (length l)) = true.
Proof.
  destruct l; simpl; [discriminate | intros _]. apply Z.ltb_lt. lia.
Qed.

(** C4, as the code has it.  When the vehicles behind the ego in the lane
    looked into are [cands], the nearest of them is [nearest], predicted at
    [p0] now and at [p1] after one step, and [delta_v = v - (p1.s - p0.s)]
    is 0, the acceleration is set to [max(-max_acceleration, -delta_s)]
    with [delta_s = s - p0.s]: the [else] of [if delta_v != 0]. *)
Theorem realize_prep_lane_change_equal_speed (self : Vehicle.t) (c : Config)
    (predictions : Predictions) (direction : string)
    (cands : list (Z * Track)) (nearest : Z * Track) (p0 p1 : Pos.t) (rest : Track) :
  (state self = "PLCL" /\ direction = "L") \/ (state self = "PLCR" /\ direction = "R") ->
  config self = Some c ->
  comprehension (is_behind (prep_lane self direction) (s self)) predictions = Ok cands ->
  py_max s_now cands = Ok nearest ->
  snd nearest = p0 :: p1 :: rest ->
  v self - (Pos.s p1 - Pos.s p0) = 0 ->
  realize_state predictions self
  = (with_a (Z.max (- max_acceleration c) (- (s self - Pos.s p0))) self, Ok tt).
Proof.
  intros Hs Hc Hcands Hmax Htrack Hdv.
  assert (Hrun : realize_state predictions self
                 = realize_prep_lane_change predictions direction self).
  { destruct Hs as [[Hs ->] | [Hs ->]];
      [apply realize_state_PLCL | apply realize_state_PLCR]; exact Hs. }
  rewrite Hrun.
  unfold realize_prep_lane_change, bind, get, lift, cfg.
  rewrite Hcands, (py_max_nonempty _ _ _ Hmax), Hmax.
  rewrite Htrack. unfold item. simpl.
  rewrite Hdv, Hc. reflexivity.
Qed.

Lemma realize_prep_lane_change_equal_speed_witness :
  let c := mkConfig 20 3 10 0 100 in
  let self := mk 1 10 2 3 "PLCL" (Some c) in
  let predictions := [(7, [Pos.mk 0 4; Pos.mk 0 6]); (8, [Pos.mk 2 4; Pos.mk 2 6])] in
  let nearest := (8, [Pos.mk 2 4; Pos.mk 2 6]) in
  ((state self = "PLCL" /\ "L" = "L") \/ (state self = "PLCR" /\ "L" = "R"))
  /\ config self = Some c
  /\ comprehension (is_behind (prep_lane self "L") (s self)) predictions = Ok [nearest]
  /\ py_max s_now [nearest] = Ok nearest
  /\ v self - (6 - 4) = 0
  /\ realize_state predictions self = (with_a (-6) self, Ok tt).
Proof.
  intros c self predictions nearest.
  assert (Hs : (state self = "PLCL" /\ "L" = "L") \/ (state self = "PLCR" /\ "L" = "R"))
    by (left; split; reflexivity).
  split; [exact Hs |].
  split; [reflexivity |]. split; [reflexivity |]. split; [reflexivity |].
  split; [reflexivity |].
  exact (realize_prep_lane_change_equal_speed self c predictions "L" [nearest] nearest
           (Pos.mk 2 4) (Pos.mk 2 6) [] Hs eq_refl eq_refl eq_refl eq_refl eq_refl).
Defined.

(** C4, as stated, fails: with a vehicle behind the ego in each adjacent
    lane that moves at the speed of the ego ([delta_v = 0]), both PLCL
    and PLCR replace the acceleration 3 by -6. *)
Lemma realize_prep_lane_change_changes_a :
  let c := mkConfig 20 3 10 0 100 in
  let predictions := [(7, [Pos.mk 0 4; Pos.mk 0 6]); (8, [Pos.mk 2 4; Pos.mk 2 6])] in
  let left := mk 1 10 2 3 "PLCL" (Some c) in
  let right := mk 1 10 2 3 "PLCR" (Some c) in
  realize_state predictions left = (with_a (-6) left, Ok tt)
  /\ realize_state predictions right = (with_a (-6) right, Ok tt)
  /\ a (with_a (-6) left) <> a left
  /\ a (with_a (-6) right) <> a right.
Proof.
  cbv zeta.
  split; [reflexivity |]. split; [reflexivity |].
  split; cbn [a with_a]; lia.
Qed.

(** ** Rolling a state out *)

Lemma restore_state_from_snapshot_run (snap : Snapshot.t) (self : Vehicle.t) :
  restore_state_from_snapshot snap self
  = (mk (Snapshot.lane snap) (Snapshot.s snap) (Snapshot.v snap) (Snapshot.a snap)
        (Snapshot.state snap) (config self), Ok tt).
Proof. reflexivity. Qed.

Lemma realize_state_config (predictions : Predictions) (self self' : Vehicle.t)
    (r : Res unit) :
  realize_state predictions self = (self', r) -> config self' = config self.
Proof.
  intros Hrun.
  destruct (string_dec (state self) "CS") as [H1 | H1].
  { rewrite (realize_state_CS _ _ H1) in Hrun. injection Hrun as <- _. reflexivity. }
  destruct (string_dec (state self) "KL") as [H2 | H2].
  { rewrite (realize_state_KL _ _ H2), realize_keep_lane_run in Hrun.
    destruct (_max_accel_for_lane _ _ _ _); injection Hrun as <- _; reflexivity. }
  destruct (string_dec (state self) "LCL") as [H3 | H3].
  { rewrite (realize_state_LCL _ _ H3), realize_lane_change_run in Hrun.
    cbv zeta in Hrun.
    destruct (_max_accel_for_lane _ _ _ _); injection Hrun as <- _; reflexivity. }
  destruct (string_dec (state self) "LCR") as [H4 | H4].
  { rewrite (realize_state_LCR _ _ H4), realize_lane_change_run in Hrun.
    cbv zeta in Hrun.
    destruct (_max_accel_for_lane _ _ _ _); injection Hrun as <- _; reflexivity. }
  destruct (string_dec (state self) "PLCL") as [H5 | H5].
  { rewrite (realize_state_PLCL _ _ H5) in Hrun.
    apply realize_prep_lane_change_frame in Hrun as [x ->]. reflexivity. }
  destruct (string_dec (state self) "PLCR") as [H6 | H6].
  { rewrite (realize_state_PLCR _ _ H6) in Hrun.
    apply realize_prep_lane_change_frame in Hrun as [x ->]. reflexivity. }
  rewrite realize_state_other in Hrun by assumption.
  injection Hrun as <- _. reflexivity.
Qed.

Lemma assert_lane_run (self self' : Vehicle.t) (r : Res unit) :
  assert_lane self = (self', r) -> self' = self.
Proof.
  unfold assert_lane, bind, get, ret, raise.
  destruct (config self) as [c |]; [destruct (_ && _) |]; intros [= <- _]; reflexivity.
Qed.

Lemma turn_config (state : string) (snap : Snapshot.t) (predictions : Predictions)
    (self self' : Vehicle.t) (r : Res unit) :
  turn state snap predictions self = (self', r) -> config self' = config self.
Proof.
  unfold turn, bind at 1.
  rewrite restore_state_from_snapshot_run.
  unfold bind at 1. unfold set_state at 1, modify at 1. cbv beta.
  unfold bind at 1.
  destruct (realize_state _ _) as [e1 [[] | ex]] eqn:Hr;
    apply realize_state_config in Hr; simpl in Hr.
  - unfold bind.
    destruct (assert_lane e1) as [e2 [[] | ex]] eqn:Ha;
      apply assert_lane_run in Ha; subst e2.
    + intros [= <- _]. simpl. exact Hr.
    + intros [= <- _]. exact Hr.
  - intros [= <- _]. exact Hr.
Qed.

Lemma trajectory_loop_step (n : nat) (state : string) (snap : Snapshot.t)
    (predictions : Dict) (trajectory : list Snapshot.t) (w : World) :
  trajectory_loop (S n) state snap predictions trajectory w
  = match turn state snap (view (heap w) predictions) (ego w) with
    | (e, Ok _) =>
        match pop_heads predictions (heap w) with
        | (h, Ok _) =>
            trajectory_loop n state snap predictions
              (trajectory ++ [snapshot e]) (mkWorld e h)
        | (h, Raise ex) => (mkWorld e h, Raise ex)
        end
    | (e, Raise ex) => (mkWorld e (heap w), Raise ex)
    end.
Proof.
  destruct w as [e0 h0].
  cbn [trajectory_loop].
  unfold turn, bind, on_ego, on_heap, get. cbn [ego heap].
  rewrite restore_state_from_snapshot_run.
  unfold set_state, modify. cbn [ego heap].
  destruct (realize_state _ _) as [e1 [[] | ex]]; [| reflexivity].
  cbn [ego heap].
  destruct (assert_lane e1) as [e2 [[] | ex]]; [| reflexivity].
  cbn [ego heap].
  destruct (increment 1 e2) as [e3 [[] | ex]]; [| reflexivity].
  cbn [ego heap].
  destruct (pop_heads predictions h0) as [h1 [[] | ex]]; reflexivity.
Qed.

Lemma kept_refl (n : nat) (h : Heap) : kept n h h.
Proof. split; [lia | reflexivity]. Qed.

Lemma kept_trans (n : nat) (h1 h2 h3 : Heap) :
  kept n h1 h2 -> kept n h2 h3 -> kept n h1 h3.
Proof.
  intros [Hl1 H1] [Hl2 H2]. split; [lia |].
  intros l Hl. rewrite H2, H1 by assumption. reflexivity.
Qed.

Lemma kept_le (n m : nat) (h h' : Heap) : (n <= m)%nat -> kept m h h' -> kept n h h'.
Proof. intros Hnm [Hl H]. split; [exact Hl |]. intros l Hn. apply H. lia. Qed.

Lemma kept_view (h h' : Heap) (d : Dict) :
  kept (length h) h h' -> allocated h d -> view h' d = view h d.
Proof.
  intros [_ H] Hd. unfold view. apply map_ext_in.
  intros it Hit. unfold deref. rewrite H by (apply Hd, Hit). reflexivity.
Qed.

Lemma pop_heads_frame (n : nat) (d : Dict) (h h' : Heap) (r : Res unit) :
  above n d -> pop_heads d h = (h', r) -> kept n h h'.
Proof.
  revert h. induction d as [| [v_id l] d IH]; simpl; intros h Hd.
  - unfold ret. intros [= <- _]. apply kept_refl.
  - destruct (deref h l) as [| p rest]; [intros [= <- _]; apply kept_refl |].
    intros Hrun. apply IH in Hrun; [| intros it Hit; apply Hd; right; exact Hit].
    eapply kept_trans; [| exact Hrun].
    split; [rewrite length_insert; lia |].
    intros l' Hl'. apply list_lookup_insert_ne.
    specialize (Hd (v_id, l) (or_introl eq_refl)). simpl in Hd. lia.
Qed.

Lemma trajectory_loop_frame (n : nat) (k : nat) (state : string) (snap : Snapshot.t)
    (d : Dict) (trajectory : list Snapshot.t) (w w' : World)
    (r : Res (list Snapshot.t)) :
  above n d ->
  trajectory_loop k state snap d trajectory w = (w', r) ->
  kept n (heap w) (heap w') /\ config (ego w') = config (ego w).
Proof.
  intros Hd. revert trajectory w.
  induction k as [| k IH]; intros trajectory w.
  - simpl. unfold ret. intros [= <- _]. split; [apply kept_refl | reflexivity].
  - rewrite trajectory_loop_step.
    destruct (turn _ _ _ _) as [e [[] | ex]] eqn:Hturn;
      apply turn_config in Hturn.
    + destruct (pop_heads d (heap w)) as [h [[] | ex]] eqn:Hpop;
        apply (pop_heads_frame n) in Hpop; try exact Hd.
      * intros Hrun. apply IH in Hrun as [Hk Hc]. simpl in Hk, Hc.
        split; [eapply kept_trans; eauto | congruence].
      * intros [= <- _]. simpl. auto.
    + intros [= <- _]. simpl. split; [apply kept_refl | exact Hturn].
Qed.

Lemma trajectory_for_state_eq (state : string) (d : Dict) (horizon : Z) (w : World) :
  _trajectory_for_state state d horizon w
  = let e := ego w in
    match trajectory_loop (Z.to_nat horizon) state (snapshot e) d [snapshot e]
            (mkWorld (mk (lane e) (s e) (v e) (a e) state (config e)) (heap w)) with
    | (w1, Ok trajectory) =>
        (mkWorld (mk (lane e) (s e) (v e) (a e) (Vehicle.state e) (config (ego w1)))
                 (heap w1), Ok trajectory)
    | (w1, Raise ex) => (w1, Raise ex)
    end.
Proof.
  unfold _trajectory_for_state, bind, get, on_ego, set_state, modify, ret.
  cbn [ego heap].
  destruct (trajectory_loop _ _ _ _ _ _) as [w1 [trajectory | ex]]; [| reflexivity].
  rewrite restore_state_from_snapshot_run. reflexivity.
Qed.

Lemma trajectory_for_state_run (n : nat) (state : string) (d : Dict) (horizon : Z)
    (w w' : World) (r : Res (list Snapshot.t)) :
  above n d ->
  _trajectory_for_state state d horizon w = (w', r) ->
  kept n (heap w) (heap w')
  /\ config (ego w') = config (ego w)
  /\ (forall trajectory, r = Ok trajectory -> ego w' = ego w).
Proof.
  intros Hd. rewrite trajectory_for_state_eq. cbv zeta.
  destruct (trajectory_loop _ _ _ _ _ _) as [w1 [trajectory | ex]] eqn:Hloop;
    apply (trajectory_loop_frame n) in Hloop as [Hk Hc]; try exact Hd;
    cbn [ego heap config] in Hk, Hc.
  - intros [= <- <-]. cbn [ego heap config].
    split; [exact Hk |]. split; [exact Hc |].
    intros trajectory0 _. rewrite Hc. destruct (ego w); reflexivity.
  - intros [= <- <-].
    split; [exact Hk |]. split; [exact Hc |]. discriminate.
Qed.

(** C2, as the code has it: when [_trajectory_for_state] returns its
    trajectory, for any state tag, predictions, horizon and store, the
    vehicle has the [lane], [s], [v], [a] and [state] it had before the
    call: the last statement before [return] restores them. *)
Theorem trajectory_for_state_restores (state : string) (predictions : Dict)
    (horizon : Z) (w w' : World) (trajectory : list Snapshot.t) :
  _trajectory_for_state state predictions horizon w = (w', Ok trajectory) ->
  lane (ego w') = lane (ego w)
  /\ s (ego w') = s (ego w)
  /\ v (ego w') = v (ego w)
  /\ a (ego w') = a (ego w)
  /\ Vehicle.state (ego w') = Vehicle.state (ego w).
Proof.
  intros Hrun.
  apply (trajectory_for_state_run 0) in Hrun as (_ & _ & He);
    [| intros it _; lia].
  rewrite (He trajectory eq_refl). repeat split.
Qed.

Lemma trajectory_for_state_restores_witness :
  let c := mkConfig 20 3 10 0 100 in
  let self := mk 1 0 20 0 "CS" (Some c) in
  let w := mkWorld self [[Pos.mk 0 (-5); Pos.mk 0 15; Pos.mk 0 35; Pos.mk 0 55;
                          Pos.mk 0 75; Pos.mk 0 95]] in
  let w' := fst (_trajectory_for_state "LCL" [(7, 0%nat)] 5 w) in
  (exists trajectory,
      _trajectory_for_state "LCL" [(7, 0%nat)] 5 w = (w', Ok trajectory))
  /\ lane (ego w') = lane (ego w)
  /\ s (ego w') = s (ego w)
  /\ v (ego w') = v (ego w)
  /\ a (ego w') = a (ego w)
  /\ Vehicle.state (ego w') = Vehicle.state (ego w).
Proof.
  intros c self w w'.
  assert (Hrun : exists trajectory,
             _trajectory_for_state "LCL" [(7, 0%nat)] 5 w = (w', Ok trajectory)).
  { eexists. vm_compute. reflexivity. }
  split; [exact Hrun |].
  destruct Hrun as [trajectory Hrun].
  exact (trajectory_for_state_restores "LCL" [(7, 0%nat)] 5 w w' trajectory Hrun).
Defined.

(** C2, as stated, fails: a call that raises does not reach the restore.
    For the ego in lane 0 and the candidate LCL with no other vehicle, the
    assertion on the lane fails and the vehicle is left in lane -1 with
    the state LCL; for the candidate KL and a vehicle ahead whose list
    holds its current position only, [leading[1]] raises [IndexError] and
    the vehicle is left with the state KL. *)
Lemma trajectory_for_state_raise_not_restored :
  let c := mkConfig 20 3 10 0 100 in
  let self := mk 0 0 20 0 "CS" (Some c) in
  _trajectory_for_state "LCL" [] 5 (mkWorld self [])
  = (mkWorld (mk (-1) 0 20 0 "LCL" (Some c)) [], Raise (AssertionError (-1)))
  /\ lane (mk (-1) 0 20 0 "LCL" (Some c)) <> lane self
  /\ _trajectory_for_state "KL" [(7, 0%nat)] 5 (mkWorld self [[Pos.mk 0 30]])
     = (mkWorld (mk 0 0 20 0 "KL" (Some c)) [[Pos.mk 0 30]], Raise IndexError)
  /\ state (mk 0 0 20 0 "KL" (Some c)) <> state self.
Proof.
  cbv zeta.
  split; [vm_compute; reflexivity |].
  split; [cbn [lane]; lia |].
  split; [vm_compute; reflexivity |].
  cbn [state]. discriminate.
Qed.

(** ** Choosing the next state *)

Lemma deepcopy_items_fresh (n : nat) (d : Dict) (memo : list (loc * loc))
    (h h' : Heap) (d' : Dict) :
  deepcopy_items memo d h = (h', d') ->
  (n <= length h)%nat ->
  (forall old new, memo_find old memo = Some new -> (n <= new)%nat) ->
  kept (length h) h h' /\ above n d' /\ map fst d' = map fst d.
Proof.
  revert memo h h' d'. induction d as [| [v_id l] d IH]; simpl;
    intros memo h h' d' Hrun Hn Hmemo.
  - injection Hrun as <- <-. split; [apply kept_refl |]. split; [intros it [] | reflexivity].
  - destruct (memo_find l memo) as [l' |] eqn:Hfind.
    + destruct (deepcopy_items memo d h) as [h1 r] eqn:Hrec.
      injection Hrun as <- <-.
      destruct (IH _ _ _ _ Hrec Hn Hmemo) as (Hk & Ha & Hids).
      split; [exact Hk |]. split; [| simpl; congruence].
      intros it [<- | Hit]; [simpl; eauto | auto].
    + destruct (deepcopy_items _ d _) as [h1 r] eqn:Hrec.
      injection Hrun as <- <-.
      apply IH in Hrec as (Hk & Ha & Hids).
      * split; [| split; [| simpl; congruence]].
        -- destruct Hk as [Hlen Hk]. rewrite length_app in Hlen, Hk. simpl in Hlen, Hk.
           split; [lia |]. intros l0 Hl0.
           rewrite Hk by lia. apply lookup_app_l. exact Hl0.
        -- intros it [<- | Hit]; [simpl; lia | auto].
      * rewrite length_app. lia.
      * intros old new. simpl.
        destruct (Nat.eqb old l); [intros [= <-]; lia | apply Hmemo].
Qed.

Lemma deepcopy_run (d : Dict) (w w' : World) (r : Res Dict) :
  deepcopy d w = (w', r) ->
  ego w' = ego w
  /\ kept (length (heap w)) (heap w) (heap w')
  /\ exists d', r = Ok d' /\ above (length (heap w)) d' /\ map fst d' = map fst d.
Proof.
  unfold deepcopy, on_heap.
  destruct (deepcopy_items [] d (heap w)) as [h' d'] eqn:Hcopy.
  intros [= <- <-]. simpl.
  apply (deepcopy_items_fresh (length (heap w))) in Hcopy as (Hk & Ha & Hids);
    [| lia | discriminate].
  eauto 10.
Qed.

Section SelectorFacts.

Context {Cost : Type}.
Variable cost_lt : Cost -> Cost -> bool.
Variable calculate_cost : Vehicle.t -> list Snapshot.t -> Predictions -> Cost.

Lemma evaluate_state_run (predictions : Dict) (state : string) (w w' : World)
    (r : Res (string * Cost)) :
  evaluate_state calculate_cost predictions state w = (w', r) ->
  kept (length (heap w)) (heap w) (heap w')
  /\ config (ego w') = config (ego w)
  /\ (forall entry, r = Ok entry -> ego w' = ego w /\ fst entry = state).
Proof.
  unfold evaluate_state. unfold bind at 1.
  destruct (deepcopy predictions w) as [w1 r1] eqn:Hcopy.
  apply deepcopy_run in Hcopy as (He1 & Hk1 & d' & -> & Ha & _).
  unfold bind at 1.
  destruct (_trajectory_for_state state d' 5 w1) as [w2 r2] eqn:Htraj.
  apply (trajectory_for_state_run (length (heap w))) in Htraj as (Hk2 & Hc2 & He2);
    [| exact Ha].
  assert (Hk : kept (length (heap w)) (heap w) (heap w2))
    by (eapply kept_trans; eauto).
  destruct r2 as [trajectory | ex].
  - unfold bind, get, ret. intros [= <- <-]. simpl.
    split; [exact Hk |]. split; [congruence |].
    intros entry [= <-]. split; [| reflexivity].
    rewrite (He2 trajectory eq_refl). exact He1.
  - intros [= <- <-]. split; [exact Hk |]. split; [congruence | discriminate].
Qed.

Lemma evaluate_states_run (predictions : Dict) (states : list string)
    (costs : list (string * Cost)) (w w' : World) (r : Res (list (string * Cost))) :
  evaluate_states calculate_cost predictions states costs w = (w', r) ->
  kept (length (heap w)) (heap w) (heap w')
  /\ config (ego w') = config (ego w)
  /\ (forall costs', r = Ok costs' ->
      ego w' = ego w /\ map fst costs' = map fst costs ++ states).
Proof.
  revert costs w. induction states as [| state states IH]; intros costs w.
  - simpl. unfold ret. intros [= <- <-].
    split; [apply kept_refl |]. split; [reflexivity |].
    intros costs' [= <-]. rewrite app_nil_r. auto.
  - simpl. unfold bind at 1.
    destruct (evaluate_state _ _ _ _) as [w1 [entry | ex]] eqn:Hone;
      apply evaluate_state_run in Hone as (Hk1 & Hc1 & He1).
    + intros Hrun. apply IH in Hrun as (Hk2 & Hc2 & He2).
      destruct (He1 entry eq_refl) as [Hego Hentry].
      split; [| split; [congruence |]].
      * eapply kept_trans; [exact Hk1 |].
        eapply kept_le; [| exact Hk2]. apply Hk1.
      * intros costs' Hr. destruct (He2 costs' Hr) as [Hego' Hmap].
        split; [congruence |].
        rewrite Hmap, map_app. simpl. rewrite Hentry, <- app_assoc. reflexivity.
    + intros [= <- <-]. split; [exact Hk1 |]. split; [exact Hc1 | discriminate].
Qed.

End SelectorFacts.

(** ** The first least element *)

Section Extremum.

Context {A K : Type}.
Variable lt : K -> K -> bool.
Variable f : A -> K.
Hypothesis lt_irrefl : forall x, lt x x = false.
Hypothesis lt_trans : forall x y z, lt x y = true -> lt y z = true -> lt x z = true.
Hypothesis lt_cotrans : forall x y z, lt x y = true -> lt z y = false -> lt x z = true.

Lemma lt_asym (x y : K) : lt x y = true -> lt y x = false.
Proof.
  intros Hxy. destruct (lt y x) eqn:Hyx; [| reflexivity].
  rewrite <- (lt_irrefl x). symmetry. eapply lt_trans; eauto.
Qed.

Lemma extremum_from_first (l : list A) (b r : A) :
  extremum_from lt (fun x => Ok (f x)) b (f b) l = Ok r ->
  (r = b /\ forall x, In x l -> lt (f x) (f b) = false)
  \/ (exists pre post,
        l = pre ++ r :: post
        /\ lt (f r) (f b) = true
        /\ (forall x, In x pre -> lt (f r) (f x) = true)
        /\ (forall x, In x post -> lt (f x) (f r) = false)).
Proof.
  revert b. induction l as [| y l IH]; intros b; simpl.
  - intros [= <-]. left. split; [reflexivity | intros x []].
  - destruct (lt (f y) (f b)) eqn:Hyb; intros Hrun; apply IH in Hrun.
    + right. destruct Hrun as [[-> Hall] | (pre & post & -> & Hry & Hpre & Hpost)].
      * exists [], l.
        split; [reflexivity |]. split; [exact Hyb |].
        split; [intros x [] | exact Hall].
      * exists (y :: pre), post.
        split; [reflexivity |].
        split; [eapply lt_trans; eauto |].
        split; [| exact Hpost].
        intros x [<- | Hx]; [exact Hry | exact (Hpre x Hx)].
    + destruct Hrun as [[-> Hall] | (pre & post & -> & Hrb & Hpre & Hpost)].
      * left. split; [reflexivity |].
        intros x [<- | Hx]; [exact Hyb | exact (Hall x Hx)].
      * right. exists (y :: pre), post.
        split; [reflexivity |]. split; [exact Hrb |].
        split; [| exact Hpost].
        intros x [<- | Hx]; [| exact (Hpre x Hx)].
        eapply lt_cotrans; eauto.
Qed.

Lemma extremum_first (l : list A) (r : A) :
  extremum lt (fun x => Ok (f x)) l = Ok r ->
  exists pre post,
    l = pre ++ r :: post
    /\ (forall x, In x pre -> lt (f r) (f x) = true)
    /\ (forall x, In x post -> lt (f x) (f r) = false).
Proof.
  destruct l as [| y l]; simpl; [discriminate |].
  intros Hrun. apply extremum_from_first in Hrun.
  destruct Hrun as [[-> Hall] | (pre & post & -> & Hry & Hpre & Hpost)].
  - exists [], l.
    split; [reflexivity |]. split; [intros x [] | exact Hall].
  - exists (y :: pre), post.
    split; [reflexivity |]. split; [| exact Hpost].
    intros x [<- | Hx]; [exact Hry | exact (Hpre x Hx)].
Qed.

End Extremum.

Lemma candidate_states_cases (self : Vehicle.t) (c : Config) :
  candidate_states self c
  = if lane self =? 0
    then if lane self =? lanes_available c - 1 then ["KL"] else ["KL"; "LCR"]
    else if lane self =? lanes_available c - 1 then ["KL"; "LCL"]
         else ["KL"; "LCL"; "LCR"].
Proof.
  unfold candidate_states.
  destruct (lane self =? 0); destruct (lane self =? lanes_available c - 1); reflexivity.
Qed.

Lemma candidate_states_legal (self : Vehicle.t) (c : Config) (state : string) :
  In state (candidate_states self c) ->
  (state = "KL" \/ state = "LCL" \/ state = "LCR")
  /\ (lane self = 0 -> state <> "LCL")
  /\ (lane self = lanes_available c - 1 -> state <> "LCR").
Proof.
  rewrite candidate_states_cases.
  destruct (lane self =? 0) eqn:H0; destruct (lane self =? lanes_available c - 1) eqn:H1;
    simpl; intros Hin;
    repeat match goal with H : _ \/ _ |- _ => destruct H end;
    try contradiction; subst state;
    (split; [tauto |]); split; intros Hl; try discriminate; lia.
Qed.

(** ** A candidate is evaluated as if it were alone

    The same dictionary copied into a longer store is the copy moved up by
    the difference of the lengths, and a roll-out over the moved copy
    pops the same heads and returns the same trajectory. *)

Lemma deref_app_l (h ext : Heap) (l : loc) :
  (l < length h)%nat -> deref (h ++ ext) l = deref h l.
Proof. intros Hl. unfold deref. rewrite lookup_app_l by exact Hl. reflexivity. Qed.

Lemma deref_nonempty (h : Heap) (l : loc) (p : Pos.t) (rest : Track) :
  deref h l = p :: rest -> (l < length h)%nat.
Proof.
  unfold deref. intros H.
  destruct (h !! l) as [x |] eqn:Hl; [| discriminate].
  eapply lookup_lt_Some, Hl.
Qed.

Lemma deref_insert_eq (h : Heap) (l : loc) (x : Track) :
  (l < length h)%nat -> deref (<[l := x]> h) l = x.
Proof.
  intros Hl. unfold deref.
  rewrite list_lookup_insert_eq by exact Hl. reflexivity.
Qed.

Lemma deref_insert_ne (h : Heap) (l l0 : loc) (x : Track) :
  l <> l0 -> deref (<[l := x]> h) l0 = deref h l0.
Proof.
  intros Hl. unfold deref.
  rewrite list_lookup_insert_ne by exact Hl. reflexivity.
Qed.

Lemma sim_view (k : nat) (d : Dict) (h1 h2 : Heap) :
  sim k d h1 h2 -> view h2 (shift k d) = view h1 d.
Proof.
  intros Hsim. unfold view, shift. rewrite map_map.
  apply map_ext_in. intros it Hit. simpl. rewrite (Hsim it Hit). reflexivity.
Qed.

Lemma pop_heads_sim (k : nat) (whole d : Dict) (h1 h2 h1' : Heap) (r : Res unit) :
  (forall it, In it d -> In it whole) ->
  sim k whole h1 h2 ->
  pop_heads d h1 = (h1', r) ->
  exists h2', pop_heads (shift k d) h2 = (h2', r) /\ sim k whole h1' h2'.
Proof.
  revert h1 h2. induction d as [| [v_id l] d IH]; simpl; intros h1 h2 Hsub Hsim.
  - unfold ret. intros [= <- <-]. eauto.
  - pose proof (Hsim (v_id, l) (Hsub _ (or_introl eq_refl))) as Hl. simpl in Hl.
    rewrite Hl.
    destruct (deref h1 l) as [| p rest] eqn:Hd1.
    + intros [= <- <-]. eauto.
    + apply IH; [intros it Hit; apply Hsub; right; exact Hit |].
      intros it Hit.
      destruct (Nat.eq_dec (snd it) l) as [-> | Hne].
      * rewrite !deref_insert_eq; [reflexivity | |];
          eapply deref_nonempty; eauto.
      * rewrite !deref_insert_ne by lia. apply Hsim, Hit.
Qed.

Lemma trajectory_loop_sim (k n : nat) (state : string) (snap : Snapshot.t)
    (d : Dict) (trajectory : list Snapshot.t) (e : Vehicle.t) (h1 h2 : Heap)
    (w1 : World) (r : Res (list Snapshot.t)) :
  sim k d h1 h2 ->
  trajectory_loop n state snap d trajectory (mkWorld e h1) = (w1, r) ->
  exists h2',
    trajectory_loop n state snap (shift k d) trajectory (mkWorld e h2)
    = (mkWorld (ego w1) h2', r).
Proof.
  revert trajectory e h1 h2. induction n as [| n IH]; intros trajectory e h1 h2 Hsim.
  - simpl. unfold ret. intros [= <- <-]. eauto.
  - rewrite !trajectory_loop_step. cbn [ego heap].
    rewrite (sim_view _ _ _ _ Hsim).
    destruct (turn _ _ _ _) as [e1 [[] | ex]].
    + destruct (pop_heads d h1) as [h1' [[] | ex]] eqn:Hpop;
        apply (pop_heads_sim k d) with (h2 := h2) in Hpop
          as (h2' & -> & Hsim'); auto.
      * intros Hrun. eapply IH; eauto.
      * intros [= <- <-]. eauto.
    + intros [= <- <-]. eauto.
Qed.

Lemma trajectory_for_state_sim (k : nat) (state : string) (d : Dict) (horizon : Z)
    (e : Vehicle.t) (h1 h2 : Heap) (w1 : World) (r : Res (list Snapshot.t)) :
  sim k d h1 h2 ->
  _trajectory_for_state state d horizon (mkWorld e h1) = (w1, r) ->
  exists h2',
    _trajectory_for_state state (shift k d) horizon (mkWorld e h2)
    = (mkWorld (ego w1) h2', r).
Proof.
  intros Hsim. rewrite !trajectory_for_state_eq. cbv zeta. cbn [ego heap].
  destruct (trajectory_loop _ _ _ d _ _) as [w1' [trajectory | ex]] eqn:Hloop;
    eapply trajectory_loop_sim in Hloop as [h2' ->]; eauto;
    intros [= <- <-]; cbn [ego heap]; eauto.
Qed.

Lemma kept_prefix (h h' : Heap) :
  kept (length h) h h' -> exists ext, h' = h ++ ext.
Proof.
  intros [Hlen Hk]. exists (drop (length h) h').
  rewrite <- (take_drop (length h) h') at 1. f_equal.
  apply list_eq. intros i.
  destruct (Nat.lt_ge_cases i (length h)) as [Hi | Hi].
  - rewrite lookup_take_lt by exact Hi. apply Hk, Hi.
  - rewrite lookup_take_ge by exact Hi. symmetry. apply lookup_ge_None_2, Hi.
Qed.

Lemma memo_find_shift (k : nat) (l : loc) (memo : list (loc * loc)) :
  memo_find l (shift_memo k memo)
  = match memo_find l memo with
    | Some l' => Some (l' + k)%nat
    | None => None
    end.
Proof.
  induction memo as [| [old new] memo IH]; simpl; [reflexivity |].
  destruct (Nat.eqb l old); [reflexivity | exact IH].
Qed.

Lemma deepcopy_items_ext (h ext : Heap) (d : Dict) (memo : list (loc * loc))
    (c h1 : Heap) (d1 : Dict) :
  allocated h d ->
  deepcopy_items memo d (h ++ c) = (h1, d1) ->
  exists c',
    h1 = h ++ c'
    /\ deepcopy_items (shift_memo (length ext) memo) d (h ++ ext ++ c)
       = (h ++ ext ++ c', shift (length ext) d1).
Proof.
  revert memo c h1 d1. induction d as [| [v_id l] d IH]; simpl;
    intros memo c h1 d1 Hd.
  - intros [= <- <-]. eauto.
  - assert (Hd' : allocated h d) by (intros it Hit; apply Hd; right; exact Hit).
    assert (Hl : (l < length h)%nat) by (apply (Hd (v_id, l)); left; reflexivity).
    rewrite memo_find_shift.
    destruct (memo_find l memo) as [l' |].
    + destruct (deepcopy_items memo d (h ++ c)) as [h' r] eqn:Hrec.
      intros [= <- <-].
      destruct (IH _ _ _ _ Hd' Hrec) as (c' & -> & ->). eauto.
    + rewrite !deref_app_l by exact Hl.
      rewrite <- app_assoc.
      destruct (deepcopy_items _ d (h ++ c ++ _)) as [h' r] eqn:Hrec.
      intros [= <- <-].
      destruct (IH _ _ _ _ Hd' Hrec) as (c' & -> & Hrun).
      exists c'. split; [reflexivity |].
      replace ((h ++ ext ++ c) ++ [deref h l]) with (h ++ ext ++ c ++ [deref h l])
        by (rewrite !app_assoc; reflexivity).
      replace (length (h ++ ext ++ c)) with (length (h ++ c) + length ext)%nat
        by (rewrite !length_app; lia).
      change ((l, (length (h ++ c) + length ext)%nat)
                :: shift_memo (length ext) memo)
        with (shift_memo (length ext) ((l, length (h ++ c)) :: memo)).
      rewrite Hrun. reflexivity.
Qed.

Lemma sim_copy (h ext c : Heap) (d : Dict) :
  above (length h) d -> sim (length ext) d (h ++ c) (h ++ ext ++ c).
Proof.
  intros Hd it Hit. specialize (Hd it Hit). unfold deref.
  rewrite !lookup_app_r by (try rewrite length_app; lia).
  do 2 f_equal. lia.
Qed.

Section Alone.

Context {Cost : Type}.
Variable calculate_cost : Vehicle.t -> list Snapshot.t -> Predictions -> Cost.

Lemma evaluate_state_eq (predictions : Dict) (state : string) (w : World) :
  evaluate_state calculate_cost predictions state w
  = let (h1, d1) := deepcopy_items [] predictions (heap w) in
    match _trajectory_for_state state d1 5 (mkWorld (ego w) h1) with
    | (w2, Ok trajectory) =>
        (w2, Ok (state,
                 calculate_cost (ego w2) trajectory (view (heap w2) predictions)))
    | (w2, Raise ex) => (w2, Raise ex)
    end.
Proof.
  unfold evaluate_state, bind, deepcopy, on_heap, get, ret.
  destruct (deepcopy_items [] predictions (heap w)) as [h1 d1].
  destruct (_trajectory_for_state _ _ _ _) as [w2 [trajectory | ex]]; reflexivity.
Qed.

Lemma evaluate_state_ext (predictions : Dict) (state : string) (e : Vehicle.t)
    (h ext : Heap) (w1 : World) (r : Res (string * Cost)) :
  allocated h predictions ->
  evaluate_state calculate_cost predictions state (mkWorld e h) = (w1, r) ->
  exists h2,
    evaluate_state calculate_cost predictions state (mkWorld e (h ++ ext))
    = (mkWorld (ego w1) h2, r).
Proof.
  intros Hd. rewrite !evaluate_state_eq. cbn [ego heap].
  destruct (deepcopy_items [] predictions h) as [h1 d1] eqn:Hcopy.
  pose proof (deepcopy_items_fresh (length h) _ _ _ _ _ Hcopy
                (Nat.le_refl _) ltac:(discriminate)) as (_ & Habove & _).
  rewrite <- (app_nil_r h) in Hcopy at 1.
  destruct (deepcopy_items_ext h ext _ _ _ _ _ Hd Hcopy) as (c' & -> & Hcopy2).
  rewrite app_nil_r in Hcopy2. simpl in Hcopy2. rewrite Hcopy2.
  destruct (_trajectory_for_state state d1 5 _) as [w2 r2] eqn:Htraj.
  pose proof (trajectory_for_state_run (length h) _ _ _ _ _ _ Habove Htraj)
    as (Hk & _ & _).
  destruct (trajectory_for_state_sim (length ext) _ _ _ _ _ (h ++ ext ++ c') _ _
              (sim_copy h ext c' d1 Habove) Htraj) as [h2 Htraj2].
  rewrite Htraj2.
  assert (Habove2 : above (length h) (shift (length ext) d1)).
  { intros it Hit. unfold shift in Hit. apply in_map_iff in Hit as (it0 & <- & Hit0).
    specialize (Habove it0 Hit0). simpl. lia. }
  pose proof (trajectory_for_state_run (length h) _ _ _ _ _ _ Habove2 Htraj2)
    as (Hk2 & _ & _).
  cbn [heap] in Hk, Hk2.
  assert (Hv1 : view (heap w2) predictions = view h predictions).
  { unfold view. apply map_ext_in. intros it Hit. unfold deref.
    rewrite (proj2 Hk) by (apply Hd, Hit).
    rewrite lookup_app_l by (apply Hd, Hit). reflexivity. }
  assert (Hv2 : view h2 predictions = view h predictions).
  { unfold view. apply map_ext_in. intros it Hit. unfold deref.
    rewrite (proj2 Hk2) by (apply Hd, Hit).
    rewrite lookup_app_l by (apply Hd, Hit). reflexivity. }
  destruct r2 as [trajectory | ex].
  - cbn [ego heap]. rewrite Hv1, Hv2. intros [= <- <-]. eauto.
  - intros [= <- <-]. eauto.
Qed.

Lemma evaluate_states_alone (predictions : Dict) (w0 : World) (states : list string)
    (costs costs' : list (string * Cost)) (wi w' : World) :
  allocated (heap w0) predictions ->
  ego wi = ego w0 ->
  (exists ext, heap wi = heap w0 ++ ext) ->
  evaluate_states calculate_cost predictions states costs wi = (w', Ok costs') ->
  exists entries,
    costs' = costs ++ entries
    /\ map fst entries = states
    /\ Forall (fun entry =>
                 cost_of calculate_cost predictions w0 (fst entry) = Ok (snd entry))
              entries.
Proof.
  intros Hd. revert costs wi.
  induction states as [| state states IH]; intros costs wi Hego [ext Hheap].
  - simpl. unfold ret. intros [= _ <-]. exists [].
    rewrite app_nil_r. auto.
  - simpl. unfold bind at 1.
    destruct (evaluate_state _ _ _ wi) as [w1 [entry | ex]] eqn:Hone;
      [| discriminate].
    intros Hrest.
    destruct (evaluate_state_run _ _ _ _ _ _ Hone) as (Hk & _ & Hok).
    destruct (Hok entry eq_refl) as [Hego1 Hentry].
    assert (Hcost : cost_of calculate_cost predictions w0 state = Ok (snd entry)).
    { unfold cost_of.
      destruct (evaluate_state calculate_cost predictions state w0)
        as [w1' r1'] eqn:Hone0.
      destruct w0 as [e0 h0]. cbn [ego heap] in *.
      destruct (evaluate_state_ext _ _ _ _ ext _ _ Hd Hone0) as [h2 Hone2].
      destruct wi as [ei hi]. cbn [ego heap] in *. subst ei hi.
      rewrite Hone in Hone2. injection Hone2 as _ <-. reflexivity. }
    apply kept_prefix in Hk as [ext1 Hheap1].
    apply IH in Hrest as (entries & -> & Hmap & Hall).
    + exists (entry :: entries). rewrite <- app_assoc. simpl.
      split; [reflexivity |]. split; [congruence |].
      constructor; [rewrite Hentry; exact Hcost | exact Hall].
    + congruence.
    + exists (ext ++ ext1). rewrite Hheap1, Hheap, app_assoc. reflexivity.
Qed.

End Alone.

Section SelectorClaims.

Context {Cost : Type}.
Variable cost_lt : Cost -> Cost -> bool.
Variable calculate_cost : Vehicle.t -> list Snapshot.t -> Predictions -> Cost.

Lemma get_next_state_run (predictions : Dict) (w w' : World) (r : Res string) :
  _get_next_state cost_lt calculate_cost predictions w = (w', r) ->
  kept (length (heap w)) (heap w) (heap w')
  /\ config (ego w') = config (ego w)
  /\ (forall best, r = Ok best ->
      ego w' = ego w
      /\ exists c costs entry,
          config (ego w) = Some c
          /\ evaluate_states calculate_cost predictions
               (candidate_states (ego w) c) [] w = (w', Ok costs)
          /\ map fst costs = candidate_states (ego w) c
          /\ extremum cost_lt (fun entry => Ok (snd entry)) costs = Ok entry
          /\ fst entry = best).
Proof.
  unfold _get_next_state. unfold bind at 1, get at 1. cbv beta iota.
  unfold bind at 1, lift at 1, cfg.
  destruct (config (ego w)) as [c |] eqn:Hc.
  - unfold bind at 1.
    destruct (evaluate_states _ _ _ _ _) as [w1 [costs | ex]] eqn:Hall;
      pose proof (evaluate_states_run _ _ _ _ _ _ _ Hall) as (Hk & Hc1 & He).
    + unfold bind, lift, ret.
      destruct (extremum _ _ costs) as [entry | ex] eqn:Hmin.
      * intros [= <- <-]. split; [exact Hk |]. split; [congruence |].
        intros best [= <-]. destruct (He costs eq_refl) as [Hego Hmap].
        split; [exact Hego |]. exists c, costs, entry. auto.
      * intros [= <- <-]. split; [exact Hk |]. split; [congruence | discriminate].
    + intros [= <- <-]. split; [exact Hk |]. split; [congruence | discriminate].
  - intros [= <- <-]. split; [apply kept_refl |]. split; [congruence | discriminate].
Qed.

(** C5: the state selector leaves the store as it found it: every list
    that existed before the call, and so every list of the predictions
    it was given, holds after the call what it held before, whether
    [_get_next_state] and [update_state] return or raise.  The lists
    popped by [_trajectory_for_state] are those of the deep copies, which
    are allocated by the call.  And the cost the loop records for a
    candidate is the cost of that candidate evaluated on its own in the
    world of the call: the roll-outs of the candidates before it have no
    part in it. *)
Theorem get_next_state_keeps_predictions (predictions : Dict) (w : World) :
  allocated (heap w) predictions ->
  (forall w' r,
      _get_next_state cost_lt calculate_cost predictions w = (w', r) ->
      view (heap w') predictions = view (heap w) predictions
      /\ kept (length (heap w)) (heap w) (heap w'))
  /\ (forall w' r,
      update_state cost_lt calculate_cost predictions w = (w', r) ->
      view (heap w') predictions = view (heap w) predictions
      /\ kept (length (heap w)) (heap w) (heap w'))
  /\ (forall states w' costs,
      evaluate_states calculate_cost predictions states [] w = (w', Ok costs) ->
      map fst costs = states
      /\ Forall (fun entry =>
                   cost_of calculate_cost predictions w (fst entry)
                   = Ok (snd entry))
                costs).
Proof.
  intros Hd.
  assert (Hsel : forall w' r,
             _get_next_state cost_lt calculate_cost predictions w = (w', r) ->
             view (heap w') predictions = view (heap w) predictions
             /\ kept (length (heap w)) (heap w) (heap w')).
  { intros w' r Hrun. apply get_next_state_run in Hrun as (Hk & _).
    split; [apply kept_view; assumption | exact Hk]. }
  split; [exact Hsel |]. split.
  - intros w' r. unfold update_state, bind.
    destruct (_get_next_state _ _ _ _) as [w1 [state | ex]] eqn:Hrun;
      pose proof (Hsel _ _ eq_refl) as Hkept.
    + unfold on_ego, set_state, modify. intros [= <- _]. exact Hkept.
    + intros [= <- _]. exact Hkept.
  - intros states w' costs Hrun.
    apply (evaluate_states_alone calculate_cost predictions w) in Hrun
      as (entries & -> & Hmap & Hall);
      [| exact Hd | reflexivity | exists []; rewrite app_nil_r; reflexivity].
    split; assumption.
Qed.

(** C6: when [update_state] returns, the state it has assigned is one of
    the candidates left after the two [remove]s: it is KL, LCL or LCR,
    it is not LCL when the lane of the ego is 0 and not LCR when the
    lane is [lanes_available - 1]; the lane is the one before the
    call. *)
Theorem update_state_legal (predictions : Dict) (w w' : World) (c : Config) :
  config (ego w) = Some c ->
  update_state cost_lt calculate_cost predictions w = (w', Ok tt) ->
  In (state (ego w')) (candidate_states (ego w) c)
  /\ (state (ego w') = "KL" \/ state (ego w') = "LCL" \/ state (ego w') = "LCR")
  /\ (lane (ego w) = 0 -> state (ego w') <> "LCL")
  /\ (lane (ego w) = lanes_available c - 1 -> state (ego w') <> "LCR")
  /\ lane (ego w') = lane (ego w).
Proof.
  intros Hc. unfold update_state, bind.
  destruct (_get_next_state _ _ _ _) as [w1 [best | ex]] eqn:Hrun; [| discriminate].
  apply get_next_state_run in Hrun as (_ & _ & Hbest).
  destruct (Hbest best eq_refl)
    as (Hego & c' & costs & entry & Hc' & _ & Hmap & Hmin & Hentry).
  assert (c' = c) by congruence. subst c'.
  unfold on_ego, set_state, modify. intros [= <-]. cbn [ego state lane].
  assert (Hin : In best (candidate_states (ego w) c)).
  { rewrite <- Hmap, <- Hentry. apply in_map. eapply extremum_In, Hmin. }
  destruct (candidate_states_legal _ _ _ Hin) as (H1 & H2 & H3).
  rewrite Hego. auto.
Qed.

Hypothesis cost_lt_irrefl : forall x, cost_lt x x = false.
Hypothesis cost_lt_trans :
  forall x y z, cost_lt x y = true -> cost_lt y z = true -> cost_lt x z = true.
Hypothesis cost_lt_cotrans :
  forall x y z, cost_lt x y = true -> cost_lt z y = false -> cost_lt x z = true.

(** C7: for costs in a strict total order, when [_get_next_state]
    returns the state [best], it is one of the candidates
    ([KL, LCL, LCR] after the [remove]s), every candidate before it in
    that order has a strictly greater cost and no candidate after it has
    a smaller one: [best] has the least cost, and of several candidates
    of least cost it is the first.  The cost of a candidate is the one
    of its evaluation on its own in the world of the call. *)
Theorem get_next_state_first_least (predictions : Dict) (w w' : World)
    (best : string) :
  allocated (heap w) predictions ->
  _get_next_state cost_lt calculate_cost predictions w = (w', Ok best) ->
  exists c pre post cost,
    config (ego w) = Some c
    /\ candidate_states (ego w) c = pre ++ best :: post
    /\ cost_of calculate_cost predictions w best = Ok cost
    /\ (forall state, In state pre ->
        exists x, cost_of calculate_cost predictions w state = Ok x
                  /\ cost_lt cost x = true /\ cost_lt x cost = false)
    /\ (forall state, In state post ->
        exists x, cost_of calculate_cost predictions w state = Ok x
                  /\ cost_lt x cost = false).
Proof.
  intros Hd Hrun. apply get_next_state_run in Hrun as (_ & _ & Hbest).
  destruct (Hbest best eq_refl)
    as (_ & c & costs & [state cost] & Hc & Hall & Hmap & Hmin & Hentry).
  simpl in Hentry. subst state.
  apply (evaluate_states_alone calculate_cost predictions w) in Hall
    as (entries & Heq & _ & Hcosts);
    [| exact Hd | reflexivity | exists []; rewrite app_nil_r; reflexivity].
  simpl in Heq. subst entries.
  apply (extremum_first cost_lt snd cost_lt_trans cost_lt_cotrans) in Hmin
    as (pre & post & -> & Hpre & Hpost).
  rewrite List.Forall_forall in Hcosts.
  exists c, (map fst pre), (map fst post), cost.
  split; [exact Hc |].
  split; [rewrite <- Hmap, map_app; reflexivity |].
  split; [apply (Hcosts (best, cost)), in_elt |].
  split; intros state Hin; apply in_map_iff in Hin as (entry & <- & Hin);
    exists (snd entry).
  - split; [apply Hcosts, in_or_app; left; exact Hin |].
    split; [apply (Hpre entry Hin) |].
    apply (lt_asym cost_lt cost_lt_irrefl cost_lt_trans), (Hpre entry Hin).
  - split; [apply Hcosts, in_or_app; right; right; exact Hin
           | apply (Hpost entry Hin)].
Qed.

End SelectorClaims.

(** ** The theorems at work *)

Lemma example_allocated : allocated (heap example_world) example_predictions.
Proof. intros it [<- | [<- | []]]; simpl; lia. Qed.

Lemma get_next_state_keeps_predictions_witness :
  let w' := fst (_get_next_state Z.ltb example_cost example_predictions example_world) in
  allocated (heap example_world) example_predictions
  /\ view (heap w') example_predictions
     = view (heap example_world) example_predictions
  /\ (length (heap example_world) < length (heap w'))%nat.
Proof.
  intros w'.
  pose proof (proj1 (get_next_state_keeps_predictions Z.ltb example_cost
                       example_predictions example_world example_allocated)
                w' (snd (_get_next_state Z.ltb example_cost example_predictions
                           example_world))) as Hkeep.
  split; [exact example_allocated |].
  split.
  - apply Hkeep. unfold w'.
    destruct (_get_next_state Z.ltb example_cost example_predictions example_world).
    reflexivity.
  - vm_compute. lia.
Defined.

Lemma update_state_legal_witness :
  let w' := fst (update_state Z.ltb example_cost example_predictions example_world) in
  config (ego example_world) = Some example_config
  /\ update_state Z.ltb example_cost example_predictions example_world = (w', Ok tt)
  /\ state (ego w') = "LCL"
  /\ In (state (ego w')) (candidate_states (ego example_world) example_config)
  /\ lane (ego w') = lane (ego example_world).
Proof.
  intros w'.
  assert (Hrun : update_state Z.ltb example_cost example_predictions example_world
                 = (w', Ok tt)) by (vm_compute; reflexivity).
  pose proof (update_state_legal Z.ltb example_cost example_predictions
                example_world w' example_config eq_refl Hrun)
    as (Hin & _ & _ & _ & Hlane).
  split; [reflexivity |]. split; [exact Hrun |].
  split; [vm_compute; reflexivity |].
  split; [exact Hin | exact Hlane].
Defined.

Lemma Z_ltb_trans (x y z : Z) : (x <? y) = true -> (y <? z) = true -> (x <? z) = true.
Proof. intros Hxy Hyz. apply Z.ltb_lt. apply Z.ltb_lt in Hxy, Hyz. lia. Qed.

Lemma Z_ltb_cotrans (x y z : Z) : (x <? y) = true -> (z <? y) = false -> (x <? z) = true.
Proof. intros Hxy Hzy. apply Z.ltb_lt. apply Z.ltb_lt in Hxy. apply Z.ltb_ge in Hzy. lia. Qed.

Lemma get_next_state_first_least_witness :
  let w' := fst (_get_next_state Z.ltb example_cost example_predictions example_world) in
  (forall x, (x <? x) = false)
  /\ (forall x y z, (x <? y) = true -> (y <? z) = true -> (x <? z) = true)
  /\ (forall x y z, (x <? y) = true -> (z <? y) = false -> (x <? z) = true)
  /\ allocated (heap example_world) example_predictions
  /\ _get_next_state Z.ltb example_cost example_predictions example_world
     = (w', Ok "LCL")
  /\ cost_of example_cost example_predictions example_world "KL" = Ok 5
  /\ cost_of example_cost example_predictions example_world "LCL" = Ok 3
  /\ cost_of example_cost example_predictions example_world "LCR" = Ok 3
  /\ exists c pre post cost,
      config (ego example_world) = Some c
      /\ candidate_states (ego example_world) c = pre ++ "LCL" :: post
      /\ cost_of example_cost example_predictions example_world "LCL" = Ok cost
      /\ (forall state, In state pre ->
          exists x, cost_of example_cost example_predictions example_world state = Ok x
                    /\ (cost <? x) = true /\ (x <? cost) = false)
      /\ (forall state, In state post ->
          exists x, cost_of example_cost example_predictions example_world state = Ok x
                    /\ (x <? cost) = false).
Proof.
  intros w'.
  assert (Hrun : _get_next_state Z.ltb example_cost example_predictions example_world
                 = (w', Ok "LCL")) by (vm_compute; reflexivity).
  split; [exact Z.ltb_irrefl |].
  split; [exact Z_ltb_trans |].
  split; [exact Z_ltb_cotrans |].
  split; [exact example_allocated |].
  split; [exact Hrun |].
  split; [vm_compute; reflexivity |].
  split; [vm_compute; reflexivity |].
  split; [vm_compute; reflexivity |].
  exact (get_next_state_first_least Z.ltb example_cost Z.ltb_irrefl Z_ltb_trans
           Z_ltb_cotrans example_predictions example_world w' "LCL"
           example_allocated Hrun).
Defined.

(** ** Further properties of the methods *)

(** *** [snapshot], [restore_state_from_snapshot], [increment], [generate_predictions] *)

(** Restoring a snapshot makes it the snapshot of the vehicle and leaves the
    configuration alone; restoring the snapshot of a vehicle into any
    vehicle of the same configuration gives that vehicle back. *)
Theorem snapshot_restore_round_trip :
  (forall (snap : Snapshot.t) (e : Vehicle.t),
      snapshot (fst (restore_state_from_snapshot snap e)) = snap
      /\ config (fst (restore_state_from_snapshot snap e)) = config e
      /\ snd (restore_state_from_snapshot snap e) = Ok tt)
  /\ (forall (self : Vehicle.t) (l x y z : Z) (tag : string),
        restore_state_from_snapshot (snapshot self) (mk l x y z tag (config self))
        = (self, Ok tt)).
Proof.
  split.
  - intros snap e. rewrite restore_state_from_snapshot_run.
    destruct snap; repeat split.
  - intros self l x y z tag. rewrite restore_state_from_snapshot_run.
    destruct self; reflexivity.
Qed.

Lemma increment_run (dt : Z) (self : Vehicle.t) :
  increment dt self
  = (mk (lane self) (s self + v self * dt) (v self + a self * dt) (a self)
        (state self) (config self), Ok tt).
Proof. reflexivity. Qed.

Lemma mk_eq (l x1 x2 y1 y2 z : Z) (tag : string) (cf : option Config) :
  x1 = x2 -> y1 = y2 -> (mk l x1 y1 z tag cf, Ok tt) = (mk l x2 y2 z tag cf, Ok tt).
Proof. intros -> ->. reflexivity. Qed.

Lemma triangle_succ (n : nat) :
  Z.of_nat (S n) * (Z.of_nat (S n) - 1) / 2
  = Z.of_nat n * (Z.of_nat n - 1) / 2 + Z.of_nat n.
Proof.
  rewrite <- Z.div_add by lia. f_equal. lia.
Qed.

(** [n] steps of [increment()] under the acceleration of the vehicle: the
    velocity is [v + a*n], as [state_at(n)] has it, and the position is
    [s + v*n + a*(n*(n-1)/2)]: each step moves by the velocity before the
    step, so the position falls short of the [a*n*n/2] of [state_at]. *)
Theorem increments_closed_form (n : nat) (self : Vehicle.t) :
  increments n self
  = (mk (lane self)
        (s self + v self * Z.of_nat n
         + a self * (Z.of_nat n * (Z.of_nat n - 1) / 2))
        (v self + a self * Z.of_nat n)
        (a self) (state self) (config self), Ok tt)
  /\ (let '(_, _, v', _) := state_at self (Z.of_nat n) in
      v (fst (increments n self)) = v').
Proof.
  assert (H : forall k e,
             increments k e
             = (mk (lane e)
                   (s e + v e * Z.of_nat k
                    + a e * (Z.of_nat k * (Z.of_nat k - 1) / 2))
                   (v e + a e * Z.of_nat k)
                   (a e) (state e) (config e), Ok tt)).
  { induction k as [| k IH]; intros e.
    - cbn [increments]. unfold ret. destruct e. cbn [lane s v a state config].
      apply mk_eq; change (Z.of_nat 0) with 0; change (0 * (0 - 1) / 2) with 0; lia.
    - cbn [increments]. unfold bind. rewrite increment_run, IH.
      cbn [lane s v a state config].
      rewrite triangle_succ. apply mk_eq; lia. }
  split; [apply H |].
  rewrite H. unfold state_at. reflexivity.
Qed.

Lemma py_range_lookup (n : Z) (i : nat) (x : Z) :
  py_range n !! i = Some x -> x = Z.of_nat i /\ (Z.of_nat i < n).
Proof.
  unfold py_range. rewrite list_lookup_fmap.
  destruct (seq 0 (Z.to_nat n) !! i) as [k |] eqn:Hk; [| discriminate].
  apply lookup_seq in Hk as [-> Hlt]. simpl. intros [= <-]. split; lia.
Qed.

(** [generate_predictions(horizon)] has [horizon] records (none for a
    horizon of 0 or less); the record at index [i] is the lane of the
    vehicle and the position of [state_at(i)]; the first one is where the
    vehicle is now. *)
Theorem generate_predictions_shape (self : Vehicle.t) (horizon : Z) :
  length (generate_predictions self horizon) = Z.to_nat horizon
  /\ (forall (i : nat) (p : Pos.t),
        generate_predictions self horizon !! i = Some p ->
        Pos.lane p = lane self /\ Pos.s p = s_at self (Z.of_nat i))
  /\ (forall p, generate_predictions self horizon !! 0%nat = Some p ->
        p = Pos.mk (lane self) (s self)).
Proof.
  assert (Hi : forall (i : nat) (p : Pos.t),
             generate_predictions self horizon !! i = Some p ->
             Pos.lane p = lane self /\ Pos.s p = s_at self (Z.of_nat i)).
  { intros i p. unfold generate_predictions. rewrite list_lookup_fmap.
    destruct (py_range horizon !! i) as [x |] eqn:Hx; [| discriminate].
    apply py_range_lookup in Hx as [-> _]. simpl. intros [= <-].
    unfold s_at, state_at. split; reflexivity. }
  split; [| split; [exact Hi |]].
  - unfold generate_predictions, py_range. rewrite !length_map, length_seq. reflexivity.
  - intros p Hp. destruct (Hi _ _ Hp) as [Hl Hs]. destruct p as [pl ps].
    simpl in Hl, Hs. subst pl ps. f_equal.
    unfold s_at, state_at. change (Z.of_nat 0) with 0.
    rewrite !Z.mul_0_r. change (0 / 2) with 0. lia.
Qed.

(** *** [realize_state] and what it dispatches to *)

Lemma lane_shift_cases (tag : string) :
  (tag = "LCL" /\ lane_shift tag = -1)
  \/ (tag = "LCR" /\ lane_shift tag = 1)
  \/ (tag <> "LCL" /\ tag <> "LCR" /\ lane_shift tag = 0).
Proof.
  unfold lane_shift.
  destruct (String.eqb_spec tag "LCL") as [-> | H1]; [left; auto |].
  destruct (String.eqb_spec tag "LCR") as [-> | H2]; [right; left; auto |].
  right; right; auto.
Qed.

Lemma realize_state_frame (predictions : Predictions) (self self' : Vehicle.t)
    (r : Res unit) :
  realize_state predictions self = (self', r) ->
  exists x, self' = mk (lane self + lane_shift (state self)) (s self) (v self) x
                       (state self) (config self).
Proof.
  intros Hrun.
  assert (Hid : forall x, with_a x self
                          = mk (lane self + 0) (s self) (v self) x (state self)
                               (config self))
    by (intros x; rewrite Z.add_0_r; reflexivity).
  destruct (string_dec (state self) "LCL") as [H3 | H3].
  { assert (Hshift : lane_shift (state self) = -1) by (rewrite H3; reflexivity).
    rewrite (realize_state_LCL _ _ H3), realize_lane_change_run in Hrun.
    cbv zeta in Hrun. rewrite Hshift.
    destruct (_max_accel_for_lane _ _ _ _) as [acc | ex]; injection Hrun as <- _;
      [exists acc | exists (a self)]; reflexivity. }
  destruct (string_dec (state self) "LCR") as [H4 | H4].
  { assert (Hshift : lane_shift (state self) = 1) by (rewrite H4; reflexivity).
    rewrite (realize_state_LCR _ _ H4), realize_lane_change_run in Hrun.
    cbv zeta in Hrun. rewrite Hshift.
    destruct (_max_accel_for_lane _ _ _ _) as [acc | ex]; injection Hrun as <- _;
      [exists acc | exists (a self)]; reflexivity. }
  assert (Hshift : lane_shift (state self) = 0).
  { destruct (lane_shift_cases (state self)) as [[? _] | [[? _] | (_ & _ & ?)]];
      [contradiction | contradiction | assumption]. }
  rewrite Hshift.
  destruct (string_dec (state self) "CS") as [H1 | H1].
  { rewrite (realize_state_CS _ _ H1) in Hrun. injection Hrun as <- _.
    exists 0. apply Hid. }
  destruct (string_dec (state self) "KL") as [H2 | H2].
  { rewrite (realize_state_KL _ _ H2), realize_keep_lane_run in Hrun.
    destruct (_max_accel_for_lane _ _ _ _) as [acc | ex]; injection Hrun as <- _;
      [exists acc; apply Hid |].
    exists (a self). rewrite <- Hid. destruct self; reflexivity. }
  destruct (string_dec (state self) "PLCL") as [H5 | H5].
  { rewrite (realize_state_PLCL _ _ H5) in Hrun.
    apply realize_prep_lane_change_frame in Hrun as [x ->]. exists x. apply Hid. }
  destruct (string_dec (state self) "PLCR") as [H6 | H6].
  { rewrite (realize_state_PLCR _ _ H6) in Hrun.
    apply realize_prep_lane_change_frame in Hrun as [x ->]. exists x. apply Hid. }
  rewrite realize_state_other in Hrun by assumption.
  injection Hrun as <- _. exists (a self). rewrite <- Hid. destruct self; reflexivity.
Qed.

(** Whatever the state tag and the predictions, and whether it returns
    or raises, [realize_state] leaves [s], [v], [state] and the
    configuration alone; the lane moves by -1 for LCL and by +1 for LCR,
    also when the call then raises, and stays for every other tag. *)
Theorem realize_state_changes_lane_and_a_only (predictions : Predictions)
    (self : Vehicle.t) :
  let self' := fst (realize_state predictions self) in
  s self' = s self
  /\ v self' = v self
  /\ state self' = state self
  /\ config self' = config self
  /\ lane self' = lane self + lane_shift (state self).
Proof.
  cbv zeta.
  destruct (realize_state predictions self) as [self' r] eqn:Hrun.
  apply realize_state_frame in Hrun as [x ->]. cbn. repeat split.
Qed.

Lemma max_accel_headroom (self : Vehicle.t) (c : Config) (predictions : Predictions)
    (l x acc : Z) :
  config self = Some c ->
  _max_accel_for_lane self predictions l x = Ok acc ->
  acc <= target_speed c - v self.
Proof.
  intros Hc. unfold _max_accel_for_lane, cfg. rewrite Hc. cbn [bindR].
  destruct (comprehension _ _) as [in_front |]; cbn [bindR]; [| discriminate].
  destruct (0 <? _).
  - destruct (py_min _ _) as [leading |]; cbn [bindR]; [| discriminate].
    destruct (item _ 1) as [p1 |]; cbn [bindR]; [| discriminate].
    destruct (load_attr _) as [b |]; cbn [bindR]; [| discriminate].
    destruct (as_int b) as [n |]; cbn [bindR]; [| discriminate].
    intros [= <-]. lia.
  - intros [= <-]. lia.
Qed.

(** After a completed KL, LCL or LCR realisation and one [increment()],
    the velocity is at most the target speed, and it has grown by at
    most [max_acceleration]. *)
Theorem keep_lane_respects_target_speed (predictions : Predictions)
    (self self' : Vehicle.t) (c : Config) :
  config self = Some c ->
  state self = "KL" \/ state self = "LCL" \/ state self = "LCR" ->
  (realize_state predictions ;;; increment 1)%M self = (self', Ok tt) ->
  v self' <= target_speed c /\ v self' <= v self + max_acceleration c.
Proof.
  intros Hc Hs. unfold bind.
  destruct (realize_state predictions self) as [e1 [[] | ex]] eqn:Hrun;
    [| discriminate].
  rewrite increment_run. intros [= <-]. cbn [v].
  assert (Hacc : exists moved acc,
             config moved = Some c /\ v moved = v self /\ v e1 = v self /\ a e1 = acc
             /\ exists l x, _max_accel_for_lane moved predictions l x = Ok acc).
  { destruct Hs as [Hs | [Hs | Hs]].
    - rewrite (realize_state_KL _ _ Hs), realize_keep_lane_run in Hrun.
      destruct (_max_accel_for_lane _ _ _ _) as [acc |] eqn:Hacc; [| discriminate].
      injection Hrun as <-. exists self, acc.
      split; [exact Hc |]. split; [reflexivity |]. split; [reflexivity |].
      split; [reflexivity |]. eauto.
    - rewrite (realize_state_LCL _ _ Hs), realize_lane_change_run in Hrun.
      cbv zeta in Hrun.
      destruct (_max_accel_for_lane _ _ _ _) as [acc |] eqn:Hacc; [| discriminate].
      injection Hrun as <-. eexists _, acc.
      split; [exact Hc |]. split; [reflexivity |]. split; [reflexivity |].
      split; [reflexivity |]. eauto.
    - rewrite (realize_state_LCR _ _ Hs), realize_lane_change_run in Hrun.
      cbv zeta in Hrun.
      destruct (_max_accel_for_lane _ _ _ _) as [acc |] eqn:Hacc; [| discriminate].
      injection Hrun as <-. eexists _, acc.
      split; [exact Hc |]. split; [reflexivity |]. split; [reflexivity |].
      split; [reflexivity |]. eauto. }
  destruct Hacc as (moved & acc & Hcm & Hvm & Hv1 & Ha1 & l & x & Hacc).
  pose proof (max_accel_headroom _ _ _ _ _ _ Hcm Hacc).
  pose proof (max_accel_upper _ _ _ _ _ _ Hcm Hacc).
  lia.
Qed.

Lemma keep_lane_respects_target_speed_witness :
  let c := mkConfig 20 3 10 0 100 in
  let self := mk 1 0 15 0 "LCR" (Some c) in
  let predictions := [(7, [Pos.mk 2 30; Pos.mk 2 32])] in
  let self' := mk 2 15 20 5 "LCR" (Some c) in
  config self = Some c
  /\ (state self = "KL" \/ state self = "LCL" \/ state self = "LCR")
  /\ (realize_state predictions ;;; increment 1)%M self = (self', Ok tt)
  /\ v self' <= target_speed c /\ v self' <= v self + max_acceleration c.
Proof.
  intros c self predictions self'.
  assert (Hs : state self = "KL" \/ state self = "LCL" \/ state self = "LCR")
    by (right; right; reflexivity).
  assert (Hrun : (realize_state predictions ;;; increment 1)%M self = (self', Ok tt))
    by reflexivity.
  split; [reflexivity |]. split; [exact Hs |]. split; [exact Hrun |].
  exact (keep_lane_respects_target_speed predictions self self' c eq_refl Hs Hrun).
Defined.

(** When a vehicle qualifies (the list of the vehicles behind in the lane
    looked into is not empty) and PLCL or PLCR completes, the acceleration
    is within [-max_acceleration, max_acceleration], whatever it was
    before. *)
Theorem prep_lane_change_clamps (predictions : Predictions) (self self' : Vehicle.t)
    (c : Config) (direction : string) (cands : list (Z * Track)) :
  config self = Some c ->
  0 <= max_acceleration c ->
  (state self = "PLCL" /\ direction = "L") \/ (state self = "PLCR" /\ direction = "R") ->
  comprehension (is_behind (prep_lane self direction) (s self)) predictions = Ok cands ->
  cands <> [] ->
  realize_state predictions self = (self', Ok tt) ->
  Z.abs (a self') <= max_acceleration c.
Proof.
  intros Hc Hm Hs Hcands Hne.
  assert (Hrun : realize_state predictions self
                 = realize_prep_lane_change predictions direction self).
  { destruct Hs as [[Hs ->] | [Hs ->]];
      [apply realize_state_PLCL | apply realize_state_PLCR]; exact Hs. }
  rewrite Hrun.
  unfold realize_prep_lane_change, bind, get, lift, set_a, modify, ret, cfg.
  rewrite Hc, Hcands.
  destruct cands as [| cand cands]; [contradiction |].
  cbn [length]. replace (0 <? Z.of_nat (S (length cands))) with true
    by (symmetry; apply Z.ltb_lt; lia).
  destruct (py_max _ _) as [nearest |] eqn:Hmax; [| discriminate].
  destruct (item _ 1) as [p1 |]; [| discriminate].
  destruct (item _ 0) as [p0 |] eqn:Hp0; [| discriminate].
  unfold py_max in Hmax. apply extremum_In in Hmax.
  destruct (comprehension_In _ _ _ _ Hcands Hmax) as [_ Hbehind].
  unfold is_behind in *. rewrite Hp0 in Hbehind. cbn [bindR] in Hbehind.
  injection Hbehind as Hbehind. apply andb_true_iff in Hbehind as [_ Hle].
  destruct (negb _); intros [= <-]; cbn [a].
  - match goal with
    | |- context [if ?x >? max_acceleration c then max_acceleration c else ?x] =>
        generalize x
    end.
    intros a0.
    destruct (a0 >? max_acceleration c) eqn:Hhi;
      [destruct (max_acceleration c <? - max_acceleration c) eqn:Hlo
      | destruct (a0 <? - max_acceleration c) eqn:Hlo]; lia.
  - lia.
Qed.

Lemma prep_lane_change_clamps_witness :
  let c := mkConfig 20 3 10 0 100 in
  let self := mk 1 10 30 50 "PLCL" (Some c) in
  let predictions := [(8, [Pos.mk 2 4; Pos.mk 2 6])] in
  config self = Some c
  /\ 0 <= max_acceleration c
  /\ comprehension (is_behind (prep_lane self "L") (s self)) predictions = Ok predictions
  /\ realize_state predictions self = (with_a (-10) self, Ok tt)
  /\ Z.abs (a (with_a (-10) self)) <= max_acceleration c.
Proof.
  intros c self predictions.
  assert (Hm : 0 <= max_acceleration c) by (cbn; lia).
  split; [reflexivity |]. split; [exact Hm |].
  split; [reflexivity |]. split; [reflexivity |].
  refine (prep_lane_change_clamps predictions self (with_a (-10) self) c "L"
            predictions eq_refl Hm _ eq_refl _ eq_refl).
  - left. split; reflexivity.
  - discriminate.
Defined.

Lemma comprehension_complete {A : Type} (p : A -> Res bool) (l r : list A) (x : A) :
  comprehension p l = Ok r -> In x l ->
  (exists b, p x = Ok b) /\ (p x = Ok true -> In x r).
Proof.
  revert r. induction l as [| y l IH]; cbn [comprehension]; intros r Hr Hx;
    [destruct Hx |].
  destruct (p y) as [b |] eqn:Hy; cbn [bindR] in Hr; [| discriminate].
  destruct (comprehension p l) as [r' |]; cbn [bindR] in Hr; [| discriminate].
  injection Hr as <-.
  destruct Hx as [<- | Hx].
  - split; [eauto |]. rewrite Hy. intros [= ->]. left. reflexivity.
  - destruct (IH r' eq_refl Hx) as [Hb Hin]. split; [exact Hb |].
    intros Ht. destruct b; [right |]; auto.
Qed.

Section ExtremumOfKeys.

Context {A : Type}.
Variable better : Z -> Z -> bool.
Variable le : Z -> Z -> Prop.
Variable key : A -> Res Z.
Hypothesis le_refl : forall x, le x x.
Hypothesis le_trans : forall x y z, le x y -> le y z -> le x z.
Hypothesis better_le : forall x y, better x y = true -> le x y.
Hypothesis worse_le : forall x y, better x y = false -> le y x.

Lemma extremum_from_bound (l : list A) (best r : A) (kbest : Z) :
  extremum_from better key best kbest l = Ok r ->
  exists kr,
    ((r = best /\ kr = kbest) \/ (In r l /\ key r = Ok kr))
    /\ le kr kbest
    /\ forall y, In y l -> exists ky, key y = Ok ky /\ le kr ky.
Proof.
  revert best kbest. induction l as [| y l IH]; intros best kbest;
    cbn [extremum_from].
  - intros [= <-]. exists kbest. split; [left; auto |]. split; [apply le_refl |].
    intros y [].
  - destruct (key y) as [ky |] eqn:Hy; cbn [bindR]; [| discriminate].
    destruct (better ky kbest) eqn:Hb; intros Hrun; apply IH in Hrun
      as (kr & Hr & Hle & Hall); exists kr.
    + split; [| split].
      * right. destruct Hr as [[-> ->] | [Hin Hk]].
        -- split; [left; reflexivity | exact Hy].
        -- split; [right; exact Hin | exact Hk].
      * eapply le_trans; [exact Hle | apply better_le, Hb].
      * intros z [<- | Hz]; [| apply Hall, Hz]. exists ky. auto.
    + split; [| split; [exact Hle |]].
      * destruct Hr as [Hr | [Hin Hk]]; [left; exact Hr |].
        right. split; [right; exact Hin | exact Hk].
      * intros z [<- | Hz]; [| apply Hall, Hz]. exists ky. split; [exact Hy |].
        eapply le_trans; [exact Hle | apply worse_le, Hb].
Qed.

Lemma extremum_bound (l : list A) (r : A) :
  extremum better key l = Ok r ->
  In r l
  /\ exists kr, key r = Ok kr
                /\ forall y, In y l -> exists ky, key y = Ok ky /\ le kr ky.
Proof.
  destruct l as [| y l]; cbn [extremum]; [discriminate |].
  destruct (key y) as [ky |] eqn:Hy; cbn [bindR]; [| discriminate].
  intros Hrun. apply extremum_from_bound in Hrun as (kr & Hr & Hle & Hall).
  destruct Hr as [[-> ->] | [Hin Hk]].
  - split; [left; reflexivity |]. exists ky. split; [exact Hy |].
    intros z [<- | Hz]; [exists ky; auto | apply Hall, Hz].
  - split; [right; exact Hin |]. exists kr. split; [exact Hk |].
    intros z [<- | Hz]; [exists ky; auto | apply Hall, Hz].
Qed.

End ExtremumOfKeys.

Lemma py_min_least {A : Type} (key : A -> Res Z) (l : list A) (r : A) :
  py_min key l = Ok r ->
  In r l
  /\ exists kr, key r = Ok kr
                /\ forall y, In y l -> exists ky, key y = Ok ky /\ kr <= ky.
Proof.
  apply (extremum_bound Z.ltb Z.le key); intros; lia.
Qed.

Lemma py_max_greatest {A : Type} (key : A -> Res Z) (l : list A) (r : A) :
  py_max key l = Ok r ->
  In r l
  /\ exists kr, key r = Ok kr
                /\ forall y, In y l -> exists ky, key y = Ok ky /\ ky <= kr.
Proof.
  apply (extremum_bound Z.gtb (fun x y => y <= x) key); intros; lia.
Qed.

Lemma is_in_front_true (l x : Z) (it : Z * Track) :
  is_in_front l x it = Ok true <->
  exists p rest, snd it = p :: rest /\ Pos.lane p = l /\ x < Pos.s p.
Proof.
  unfold is_in_front, item. destruct (snd it) as [| p rest]; cbn.
  - split; [discriminate | intros (p & rest & H & _); discriminate].
  - split.
    + intros [= H]. apply andb_true_iff in H as [Hl Hs].
      exists p, rest. repeat split; lia.
    + intros (q & tl & [= <- <-] & Hl & Hs). f_equal.
      apply andb_true_iff. split; lia.
Qed.

(** What [_max_accel_for_lane] returns for a configured vehicle.  Either
    no vehicle of the predictions is now in the lane and ahead of [s], and
    the result is [min(max_acceleration, target_speed - v)]; or the
    result is the least of that and [next - (s + v) - preferred_buffer],
    where [next] is the position one step ahead of a vehicle that is in
    the lane and ahead of [s] now, and that no such vehicle is nearer
    than. *)
Theorem max_accel_for_lane_result (self : Vehicle.t) (c : Config)
    (predictions : Predictions) (l x acc : Z) :
  config self = Some c ->
  _max_accel_for_lane self predictions l x = Ok acc ->
  (no_lead predictions l x
   /\ acc = Z.min (max_acceleration c) (target_speed c - v self))
  \/ (exists v_id p0 p1 rest,
        In (v_id, p0 :: p1 :: rest) predictions
        /\ Pos.lane p0 = l /\ x < Pos.s p0
        /\ (forall it q tl, In it predictions -> snd it = q :: tl ->
            Pos.lane q = l -> x < Pos.s q -> Pos.s p0 <= Pos.s q)
        /\ acc = Z.min (Z.min (max_acceleration c) (target_speed c - v self))
                       (Pos.s p1 - (x + v self) - 6)).
Proof.
  intros Hc. unfold _max_accel_for_lane, cfg. rewrite Hc. cbn [bindR].
  destruct (comprehension _ _) as [in_front |] eqn:Hfront; cbn [bindR];
    [| discriminate].
  destruct (0 <? _) eqn:Hlen.
  - destruct (py_min _ _) as [leading |] eqn:Hmin; cbn [bindR]; [| discriminate].
    destruct (item leading 1) as [p1 |] eqn:Hp1; cbn [bindR]; [| discriminate].
    change (load_attr "preferred_buffer") with (Ok (PInt 6)). cbn [bindR as_int].
    intros [= <-]. right.
    apply py_min_least in Hmin as (Hin & kr & Hkr & Hleast).
    apply in_map_iff in Hin as ([v_id tr] & Htr & Hin). cbn in Htr. subst tr.
    destruct (comprehension_In _ _ _ _ Hfront Hin) as [Hpred Hahead].
    apply is_in_front_true in Hahead as (p0 & rest0 & Hshape & Hl & Hs).
    cbn in Hshape. subst leading.
    destruct rest0 as [| p1' rest]; [discriminate |].
    cbn in Hp1. injection Hp1 as ->.
    exists v_id, p0, p1, rest.
    split; [exact Hpred |]. split; [exact Hl |]. split; [exact Hs |].
    split; [| reflexivity].
    intros it q tl Hit Hq Hlq Hsq.
    assert (Hfr : is_in_front l x it = Ok true)
      by (apply is_in_front_true; eauto).
    destruct (comprehension_complete _ _ _ _ Hfront Hit) as [_ Hin'].
    specialize (Hin' Hfr).
    destruct (Hleast (snd it) (in_map snd _ _ Hin')) as (ky & Hky & Hle).
    rewrite Hq in Hky. cbn in Hky, Hkr.
    injection Hky as <-. injection Hkr as <-. lia.
  - intros [= <-]. left. split; [| reflexivity].
    assert (Hnil : in_front = []).
    { destruct in_front; [reflexivity |]. cbn in Hlen.
      apply Z.ltb_ge in Hlen. lia. }
    subst in_front. intros it Hit.
    destruct (comprehension_complete _ _ _ _ Hfront Hit) as [[b Hb] Hin].
    unfold is_in_front, item in Hb.
    destruct (snd it) as [| p rest] eqn:Hsnd; [discriminate |].
    exists p, rest. split; [reflexivity |].
    intros [Hl Hs]. apply Hin.
    apply is_in_front_true. exists p, rest. auto.
Qed.

Lemma max_accel_for_lane_result_witness :
  let c := mkConfig 20 3 10 0 100 in
  let self := mk 1 0 15 0 "KL" (Some c) in
  let predictions := [(7, [Pos.mk 1 40; Pos.mk 1 42]); (8, [Pos.mk 1 12; Pos.mk 1 14]);
                      (9, [Pos.mk 0 5; Pos.mk 0 9])] in
  config self = Some c
  /\ _max_accel_for_lane self predictions 1 0 = Ok (-7)
  /\ ((no_lead predictions 1 0 /\ -7 = Z.min (max_acceleration c) (target_speed c - v self))
      \/ (exists v_id p0 p1 rest,
            In (v_id, p0 :: p1 :: rest) predictions
            /\ Pos.lane p0 = 1 /\ 0 < Pos.s p0
            /\ (forall it q tl, In it predictions -> snd it = q :: tl ->
                Pos.lane q = 1 -> 0 < Pos.s q -> Pos.s p0 <= Pos.s q)
            /\ -7 = Z.min (Z.min (max_acceleration c) (target_speed c - v self))
                          (Pos.s p1 - (0 + v self) - 6))).
Proof.
  intros c self predictions.
  split; [reflexivity |]. split; [reflexivity |].
  exact (max_accel_for_lane_result self c predictions 1 0 (-7) eq_refl eq_refl).
Defined.

Lemma is_behind_true (l x : Z) (it : Z * Track) :
  is_behind l x it = Ok true <->
  exists p rest, snd it = p :: rest /\ Pos.lane p = l /\ Pos.s p <= x.
Proof.
  unfold is_behind, item. destruct (snd it) as [| p rest]; cbn.
  - split; [discriminate | intros (p & rest & H & _); discriminate].
  - split.
    + intros [= H]. apply andb_true_iff in H as [Hl Hs].
      exists p, rest. repeat split; lia.
    + intros (q & tl & [= <- <-] & Hl & Hs). f_equal.
      apply andb_true_iff. split; lia.
Qed.

(** What PLCL and PLCR do to the acceleration of a configured vehicle when
    they complete, [lane'] being the lane looked into.  Either no vehicle
    of the predictions is now in [lane'] at or behind the ego, and the
    acceleration is kept; or there is one, predicted at [p0] now and [p1]
    one step ahead, that none of them is ahead of, and with
    [delta_v = v - (p1.s - p0.s)] and [delta_s = s - p0.s] the
    acceleration is [max(-max_acceleration, -delta_s)] when [delta_v] is
    0, and otherwise [delta_v / time] for [time = -2*delta_s / delta_v]
    (the old acceleration when [time] is 0), clamped to
    [-max_acceleration, max_acceleration], upper bound first. *)
Theorem prep_lane_change_result (self self' : Vehicle.t) (c : Config)
    (predictions : Predictions) (direction : string) :
  config self = Some c ->
  realize_prep_lane_change predictions direction self = (self', Ok tt) ->
  let lane' := prep_lane self direction in
  ((forall it, In it predictions ->
      exists p rest, snd it = p :: rest /\ ~ (Pos.lane p = lane' /\ Pos.s p <= s self))
   /\ self' = self)
  \/ (exists v_id p0 p1 rest,
        In (v_id, p0 :: p1 :: rest) predictions
        /\ Pos.lane p0 = lane' /\ Pos.s p0 <= s self
        /\ (forall it q tl, In it predictions -> snd it = q :: tl ->
            Pos.lane q = lane' -> Pos.s q <= s self -> Pos.s q <= Pos.s p0)
        /\ let delta_v := v self - (Pos.s p1 - Pos.s p0) in
           let delta_s := s self - Pos.s p0 in
           let time := -2 * delta_s / delta_v in
           let raw := if time =? 0 then a self else delta_v / time in
           let capped := if raw >? max_acceleration c then max_acceleration c else raw in
           self' = with_a (if delta_v =? 0
                           then Z.max (- max_acceleration c) (- delta_s)
                           else if capped <? - max_acceleration c
                                then - max_acceleration c else capped) self).
Proof.
  intros Hc. cbv zeta.
  unfold realize_prep_lane_change, bind, get, lift, set_a, modify, ret, cfg.
  rewrite Hc.
  destruct (comprehension _ _) as [cands |] eqn:Hcands; [| discriminate].
  destruct (0 <? _) eqn:Hlen.
  - destruct (py_max _ _) as [nearest |] eqn:Hmax; [| discriminate].
    destruct (item (snd nearest) 1) as [p1 |] eqn:Hp1; [| discriminate].
    destruct (item (snd nearest) 0) as [p0 |] eqn:Hp0; [| discriminate].
    apply py_max_greatest in Hmax as (Hin & kr & Hkr & Hgreatest).
    destruct (comprehension_In _ _ _ _ Hcands Hin) as [Hpred Hbehind].
    apply is_behind_true in Hbehind as (p0' & rest0 & Hshape & Hl & Hs).
    destruct nearest as [v_id tr]. cbn [snd] in *. subst tr.
    cbn in Hp0. injection Hp0 as ->.
    destruct rest0 as [| p1' rest]; [discriminate |].
    cbn in Hp1. injection Hp1 as ->.
    cbn in Hkr. injection Hkr as <-.
    intros Hrun. right. exists v_id, p0, p1, rest.
    split; [exact Hpred |]. split; [exact Hl |]. split; [exact Hs |].
    split.
    + intros it q tl Hit Hq Hlq Hsq.
      assert (Hb : is_behind (prep_lane self direction) (s self) it = Ok true)
        by (apply is_behind_true; eauto).
      destruct (comprehension_complete _ _ _ _ Hcands Hit) as [_ Hin'].
      destruct (Hgreatest it (Hin' Hb)) as (ky & Hky & Hle).
      unfold s_now in Hky. rewrite Hq in Hky. cbn in Hky. injection Hky as <-.
      exact Hle.
    + destruct (v self - (Pos.s p1 - Pos.s p0) =? 0); cbn [negb] in Hrun;
        injection Hrun as <-; reflexivity.
  - intros [= <-]. left. split; [| reflexivity].
    assert (Hnil : cands = []).
    { destruct cands; [reflexivity |]. cbn in Hlen. apply Z.ltb_ge in Hlen. lia. }
    subst cands. intros it Hit.
    destruct (comprehension_complete _ _ _ _ Hcands Hit) as [[b Hb] Hin].
    unfold is_behind, item in Hb.
    destruct (snd it) as [| p rest] eqn:Hsnd; [discriminate |].
    exists p, rest. split; [reflexivity |].
    intros [Hl Hs]. apply Hin.
    apply is_behind_true. exists p, rest. auto.
Qed.

Lemma prep_lane_change_result_witness :
  let c := mkConfig 20 3 10 0 100 in
  let self := mk 1 10 5 0 "PLCL" (Some c) in
  let predictions := [(7, [Pos.mk 2 4; Pos.mk 2 6]); (8, [Pos.mk 2 1; Pos.mk 2 9])] in
  config self = Some c
  /\ realize_prep_lane_change predictions "L" self = (with_a (-1) self, Ok tt)
  /\ exists v_id p0 p1 rest,
      In (v_id, p0 :: p1 :: rest) predictions
      /\ Pos.s p0 = 4 /\ Pos.s p1 = 6.
Proof.
  intros c self predictions.
  split; [reflexivity |]. split; [reflexivity |].
  destruct (prep_lane_change_result self (with_a (-1) self) c predictions "L"
              eq_refl eq_refl) as [[Hnone _] | (v_id & p0 & p1 & rest & Hin & _ & _ & Hmax & _)].
  - exfalso. destruct (Hnone _ (or_introl eq_refl)) as (p & tl & [= <- _] & Hno).
    apply Hno. split; [reflexivity |]. unfold self. cbn [Pos.s s]. lia.
  - exists v_id, p0, p1, rest. split; [exact Hin |].
    destruct Hin as [[= <- <- <- <-] | [[= <- <- <- <-] | []]]; cbn.
    + auto.
    + exfalso.
      specialize (Hmax (7, [Pos.mk 2 4; Pos.mk 2 6]) (Pos.mk 2 4) [Pos.mk 2 6]
                       (or_introl eq_refl) eq_refl eq_refl).
      unfold self in Hmax. cbn [Pos.s s] in Hmax. lia.
Defined.

(** *** The store: [deepcopy] and the loop of [pop(0)] *)

Lemma pop_heads_other (d : Dict) (h h' : Heap) (r : Res unit) (l : loc) :
  pop_heads d h = (h', r) ->
  ~ In l (map snd d) ->
  h' !! l = h !! l /\ length h' = length h.
Proof.
  revert h. induction d as [| [v_id l0] d IH]; cbn [pop_heads]; intros h.
  - unfold ret. intros [= <- _] _. auto.
  - destruct (deref h l0) as [| p rest]; [intros [= <- _] _; auto |].
    intros Hrun Hl. cbn in Hl.
    apply IH in Hrun as [Hk Hlen]; [| tauto].
    rewrite Hk, Hlen, length_insert, list_lookup_insert_ne by tauto. auto.
Qed.

Lemma pop_heads_length (d : Dict) (h h' : Heap) (r : Res unit) :
  pop_heads d h = (h', r) -> length h' = length h.
Proof.
  revert h. induction d as [| [v_id l0] d IH]; cbn [pop_heads]; intros h.
  - unfold ret. intros [= <- _]. reflexivity.
  - destruct (deref h l0) as [| p rest]; [intros [= <- _]; reflexivity |].
    intros Hrun. apply IH in Hrun. rewrite Hrun, length_insert. reflexivity.
Qed.

Lemma view_cons (h : Heap) (v_id : Z) (l : loc) (d : Dict) :
  view h ((v_id, l) :: d) = (v_id, deref h l) :: view h d.
Proof. reflexivity. Qed.

Lemma view_insert_other (d : Dict) (h : Heap) (l : loc) (x : Track) :
  ~ In l (map snd d) -> view (<[l := x]> h) d = view h d.
Proof.
  intros Hl. unfold view. apply map_ext_in. intros it Hit.
  rewrite deref_insert_ne; [reflexivity |].
  intros ->. apply Hl. apply in_map. exact Hit.
Qed.

(** The loop [for v_id, v in predictions.items(): v.pop(0)] over a
    dictionary whose lists are distinct objects: it raises nothing but
    [IndexError]; when no list is empty it returns, every list has lost
    its head and every other list of the store is as it was; when a list
    is empty it raises. *)
Theorem pop_heads_tails (d : Dict) (h : Heap) :
  List.NoDup (map snd d) ->
  index_error_only (snd (pop_heads d h))
  /\ ((forall it, In it d -> deref h (snd it) <> []) ->
      snd (pop_heads d h) = Ok tt
      /\ view (fst (pop_heads d h)) d = map popped (view h d)
      /\ length (fst (pop_heads d h)) = length h
      /\ forall l, ~ In l (map snd d) -> fst (pop_heads d h) !! l = h !! l)
  /\ ((exists it, In it d /\ deref h (snd it) = []) ->
      snd (pop_heads d h) = Raise IndexError).
Proof.
  intros Hnd. split; [| split].
  - revert h. clear Hnd. induction d as [| [v_id l] d IH]; cbn [pop_heads]; intros h.
    + exact I.
    + destruct (deref h l); [reflexivity | apply IH].
  - revert h. induction d as [| [v_id l] d IH]; intros h Hne.
    + cbn. repeat split.
    + cbn [pop_heads map snd] in *. apply List.NoDup_cons_iff in Hnd as [Hl Hnd].
      destruct (deref h l) as [| p rest] eqn:Hd.
      { exfalso. apply (Hne (v_id, l)); [left; reflexivity | exact Hd]. }
      assert (Hl' : (l < length h)%nat) by (eapply deref_nonempty; eauto).
      assert (Hne' : forall it, In it d -> deref (<[l := rest]> h) (snd it) <> []).
      { intros it Hit. rewrite deref_insert_ne.
        - apply Hne. right. exact Hit.
        - intros ->. apply Hl. apply in_map. exact Hit. }
      destruct (IH Hnd _ Hne') as (Hok & Hview & Hlen & Hother).
      destruct (pop_heads d (<[l := rest]> h)) as [h' r] eqn:Hrun.
      cbn [fst snd] in *. subst r.
      split; [reflexivity |]. split; [| split].
      * rewrite !view_cons. cbn [map]. rewrite Hview, view_insert_other by exact Hl.
        f_equal. unfold popped. cbn [fst snd]. f_equal.
        unfold deref at 1. rewrite (Hother l Hl).
        fold (deref (<[l := rest]> h) l).
        rewrite deref_insert_eq by exact Hl'. rewrite Hd. reflexivity.
      * rewrite Hlen, length_insert. reflexivity.
      * intros l0 Hl0. cbn in Hl0. rewrite Hother by tauto.
        apply list_lookup_insert_ne. tauto.
  - revert h. induction d as [| [v_id l] d IH]; intros h (it & Hit & Hempty).
    + destruct Hit.
    + cbn [pop_heads map snd] in *. apply List.NoDup_cons_iff in Hnd as [Hl Hnd].
      destruct (deref h l) as [| p rest] eqn:Hd; [reflexivity |].
      apply (IH Hnd). destruct Hit as [<- | Hit]; [cbn in Hempty; congruence |].
      exists it. split; [exact Hit |].
      rewrite deref_insert_ne; [exact Hempty |].
      intros ->. apply Hl. apply in_map. exact Hit.
Qed.

Lemma pop_heads_tails_witness :
  let h := [[Pos.mk 0 1; Pos.mk 0 2]; [Pos.mk 1 5]; [Pos.mk 2 7]] in
  let d := [(7, 1%nat); (8, 0%nat)] in
  List.NoDup (map snd d)
  /\ pop_heads d h = ([[Pos.mk 0 2]; []; [Pos.mk 2 7]], Ok tt)
  /\ index_error_only (snd (pop_heads d h)).
Proof.
  intros h d.
  assert (Hnd : List.NoDup (map snd d)).
  { cbn. repeat constructor; cbn; intuition discriminate. }
  split; [exact Hnd |]. split; [reflexivity |].
  exact (proj1 (pop_heads_tails d h Hnd)).
Defined.




(** *** The roll-out *)

Lemma assert_lane_ok (self self' : Vehicle.t) :
  assert_lane self = (self', Ok tt) ->
  self' = self
  /\ exists c, config self = Some c /\ 0 <= lane self < lanes_available c.
Proof.
  unfold assert_lane, bind, get, ret, raise.
  destruct (config self) as [c |]; [| discriminate].
  destruct (_ && _) eqn:Hb; [| discriminate].
  intros [= <-]. split; [reflexivity |]. exists c. split; [reflexivity |].
  apply andb_true_iff in Hb. lia.
Qed.

Lemma turn_ok (tag : string) (snap : Snapshot.t) (predictions : Predictions)
    (e e' : Vehicle.t) :
  turn tag snap predictions e = (e', Ok tt) ->
  config e' = config e /\ one_step tag snap (config e) (snapshot e').
Proof.
  intros Hrun. pose proof (turn_config _ _ _ _ _ _ Hrun) as Hc.
  split; [exact Hc |].
  revert Hrun. unfold turn, bind at 1.
  rewrite restore_state_from_snapshot_run.
  unfold bind at 1. unfold set_state at 1, modify at 1. cbv beta.
  unfold bind at 1.
  destruct (realize_state _ _) as [e1 [[] | ex]] eqn:Hr; [| discriminate].
  apply realize_state_frame in Hr as [x ->]. cbn [lane s v a state config].
  unfold bind.
  destruct (assert_lane _) as [e2 [[] | ex]] eqn:Ha; [| discriminate].
  apply assert_lane_ok in Ha as [-> (c & Hcfg & Hlane)].
  rewrite increment_run. intros [= <-].
  cbn [lane s v a state config] in *.
  unfold one_step, snapshot. cbn.
  split; [reflexivity |]. split; [reflexivity |].
  split; [lia |]. split; [lia |]. exists c. auto.
Qed.

Lemma trajectory_loop_entries (k : nat) (state : string) (snap : Snapshot.t)
    (d : Dict) (trajectory trajectory' : list Snapshot.t) (w w' : World) :
  trajectory_loop k state snap d trajectory w = (w', Ok trajectory') ->
  exists later,
    trajectory' = trajectory ++ later
    /\ length later = k
    /\ List.Forall (one_step state snap (config (ego w))) later.
Proof.
  revert trajectory w. induction k as [| k IH]; intros trajectory w.
  - cbn. unfold ret. intros [= _ <-]. exists []. rewrite app_nil_r. auto.
  - rewrite trajectory_loop_step.
    destruct (turn _ _ _ _) as [e [[] | ex]] eqn:Hturn; [| discriminate].
    apply turn_ok in Hturn as [Hc Hstep].
    destruct (pop_heads d (heap w)) as [h [[] | ex]]; [| discriminate].
    intros Hrun. apply IH in Hrun as (later & -> & Hlen & Hall).
    cbn [ego] in Hall. rewrite Hc in Hall.
    exists (snapshot e :: later). rewrite <- app_assoc.
    split; [reflexivity |]. split; [cbn; lia |].
    constructor; assumption.
Qed.

(** The trajectory [_trajectory_for_state] returns: the snapshot of the
    vehicle at the call, then one snapshot for each of the [horizon]
    turns.  Every turn starts again from the first snapshot, so each
    later snapshot has the state tag of the roll-out, the position
    [s + v] and the velocity [v + a] for the acceleration [a] of that
    turn, and a lane that passed the assertion: the lane at the call moved
    by the tag, within [0, lanes_available). *)
Theorem trajectory_for_state_shape (state : string) (predictions : Dict)
    (horizon : Z) (w w' : World) (trajectory : list Snapshot.t) :
  _trajectory_for_state state predictions horizon w = (w', Ok trajectory) ->
  exists later,
    trajectory = snapshot (ego w) :: later
    /\ length later = Z.to_nat horizon
    /\ List.Forall (one_step state (snapshot (ego w)) (config (ego w))) later.
Proof.
  rewrite trajectory_for_state_eq. cbv zeta.
  destruct (trajectory_loop _ _ _ _ _ _) as [w1 [trajectory1 | ex]] eqn:Hloop;
    [| discriminate].
  intros [= _ <-].
  apply trajectory_loop_entries in Hloop as (later & -> & Hlen & Hall).
  exists later. auto.
Qed.

Lemma trajectory_for_state_shape_witness :
  let w' := fst (_trajectory_for_state "LCR" example_predictions 5 example_world) in
  let trajectory := [Snapshot.mk 1 0 20 0 "CS"; Snapshot.mk 2 20 20 0 "LCR";
                     Snapshot.mk 2 20 20 0 "LCR"; Snapshot.mk 2 20 20 0 "LCR";
                     Snapshot.mk 2 20 20 0 "LCR"; Snapshot.mk 2 20 20 0 "LCR"] in
  _trajectory_for_state "LCR" example_predictions 5 example_world = (w', Ok trajectory)
  /\ exists later,
      trajectory = snapshot (ego example_world) :: later
      /\ length later = Z.to_nat 5.
Proof.
  intros w' trajectory.
  assert (Hrun : _trajectory_for_state "LCR" example_predictions 5 example_world
                 = (w', Ok trajectory)) by (vm_compute; reflexivity).
  split; [exact Hrun |].
  destruct (trajectory_for_state_shape _ _ _ _ _ _ Hrun) as (later & Heq & Hlen & _).
  exists later. auto.
Defined.

Lemma turn_unconfigured (state : string) (snap : Snapshot.t)
    (predictions : Predictions) (e : Vehicle.t) :
  config e = None ->
  exists e' ex, turn state snap predictions e = (e', Raise ex).
Proof.
  intros Hc. unfold turn, bind at 1.
  rewrite restore_state_from_snapshot_run.
  unfold bind at 1. unfold set_state at 1, modify at 1. cbv beta.
  unfold bind at 1.
  destruct (realize_state _ _) as [e1 [[] | ex]] eqn:Hr; [| eauto].
  apply realize_state_config in Hr. cbn [config] in Hr.
  unfold bind, assert_lane at 1, bind, get, raise.
  rewrite Hr, Hc. eauto.
Qed.

Lemma trajectory_loop_unconfigured (k : nat) (tag : string) (snap : Snapshot.t)
    (d : Dict) (trajectory : list Snapshot.t) (w : World) :
  config (ego w) = None ->
  exists w' ex,
    trajectory_loop (S k) tag snap d trajectory w = (w', Raise ex).
Proof.
  intros Hc. rewrite trajectory_loop_step.
  destruct (turn_unconfigured tag snap (view (heap w) d) (ego w) Hc)
    as (e' & ex & ->).
  eauto.
Qed.

(** A vehicle that [configure] was never called on: the state selector
    raises [TypeError] (at [self.lanes_available - 1]) and leaves the
    vehicle and the store as they were; a roll-out of one turn or more
    never returns, whatever the state tag: the realisation raises, or
    else the assertion on the lane fails against [None]. *)
Theorem unconfigured_vehicle_fails {Cost : Type} (cost_lt : Cost -> Cost -> bool)
    (calculate_cost : Vehicle.t -> list Snapshot.t -> Predictions -> Cost)
    (w : World) :
  config (ego w) = None ->
  (forall predictions,
      _get_next_state cost_lt calculate_cost predictions w = (w, Raise TypeError)
      /\ update_state cost_lt calculate_cost predictions w = (w, Raise TypeError))
  /\ (forall tag predictions horizon, 0 < horizon ->
      exists w' ex, _trajectory_for_state tag predictions horizon w = (w', Raise ex)).
Proof.
  intros Hc. split.
  - intros predictions.
    assert (Hsel : _get_next_state cost_lt calculate_cost predictions w
                   = (w, Raise TypeError)).
    { unfold _get_next_state, bind, get, lift, cfg. rewrite Hc. reflexivity. }
    split; [exact Hsel |]. unfold update_state, bind. rewrite Hsel. reflexivity.
  - intros tag predictions horizon Hpos. rewrite trajectory_for_state_eq. cbv zeta.
    destruct (Z.to_nat horizon) as [| k] eqn:Hk; [lia |].
    edestruct (trajectory_loop_unconfigured k tag (snapshot (ego w)) predictions
                 [snapshot (ego w)]) as (w' & ex & ->); [| eauto].
    exact Hc.
Qed.

Lemma unconfigured_vehicle_fails_witness :
  let w := mkWorld (init 1 0 20 0) [] in
  config (ego w) = None
  /\ update_state Z.ltb example_cost [] w = (w, Raise TypeError)
  /\ _trajectory_for_state "CS" [] 5 w
     = (mkWorld (mk 1 0 20 0 "CS" None) [], Raise (AssertionError 1)).
Proof.
  intros w.
  split; [reflexivity |].
  split; [| vm_compute; reflexivity].
  exact (proj2 (proj1 (unconfigured_vehicle_fails Z.ltb example_cost w eq_refl) [])).
Defined.

(** *** The selector on a vehicle in a lane of the road *)













Section SelectorOnTheRoad.

Context {Cost : Type}.
Variable cost_lt : Cost -> Cost -> bool.
Variable calculate_cost : Vehicle.t -> list Snapshot.t -> Predictions -> Cost.





End SelectorOnTheRoad.


End Vehicle.
